(** * libraryFilters: filter tokens, media-type dispatch and shelf assembly

    A shallow embedding of [server/utils/queries/libraryFilters.js] together
    with the parts of the JavaScript runtime the module relies on
    ([decodeURIComponent], [Buffer], [String.prototype.startsWith] and
    [replace], [Array.prototype.find], [sort] and [map]).

    JavaScript strings are sequences of UTF-16 code units, buffers are
    sequences of octets; both are lists over [Z].  Asynchronous functions
    are trees of storage requests (see [Async]). *)

From Stdlib Require Import ZArith List String Ascii Bool Lia.
From Stdlib Require Import Permutation Sorted.
Import ListNotations.
Open Scope Z_scope.

(** ** JavaScript values used by the module *)

(** A string is the list of its UTF-16 code units. *)
Definition jsstring := list Z.

(** An ASCII literal of the source as a [jsstring]. *)
Definition lit (s : string) : jsstring :=
  map (fun a => Z.of_N (N_of_ascii a)) (list_ascii_of_string s).

Definition jsstring_eqb (a b : jsstring) : bool :=
  if list_eq_dec Z.eq_dec a b then true else false.

(** Exceptions raised by the runtime; [StorageError] stands for a rejection
    of a storage request. *)
Inductive JSError : Type :=
| URIError
| TypeError
| StorageError.

(** The completion of a synchronous computation: a value or a throw. *)
Inductive completion (A : Type) : Type :=
| Return (a : A)
| Throw (e : JSError).
Arguments Return {A} a.
Arguments Throw {A} e.

Definition cbind {A B : Type} (c : completion A) (k : A -> completion B)
  : completion B :=
  match c with
  | Return a => k a
  | Throw e => Throw e
  end.

Notation "x <- c ;; k" := (cbind c (fun x => k))
  (at level 61, c at next level, right associativity).

(** JavaScript truthiness of a value that is a string, [null] or
    [undefined]: only a non-empty string is truthy. *)
Definition truthy_string (v : option jsstring) : bool :=
  match v with
  | Some (_ :: _) => true
  | _ => false
  end.

(** Truthiness of a number, [null] or [undefined]. *)
Definition truthy_number (v : option Z) : bool :=
  match v with
  | Some n => negb (n =? 0)
  | None => false
  end.

(** ** String.prototype.startsWith, String.prototype.replace *)

Fixpoint startsWith (s searchString : jsstring) {struct searchString}
  : bool :=
  match searchString with
  | [] => true
  | p :: searchString' =>
    match s with
    | [] => false
    | c :: s' => (c =? p) && startsWith s' searchString'
    end
  end.

(** [s.replace(pattern, replacement)] for a string pattern: the first
    occurrence of [pattern] is replaced ([replacement] holds no [$]). *)
Fixpoint replace (s pattern replacement : jsstring) : jsstring :=
  if startsWith s pattern then replacement ++ skipn (List.length pattern) s
  else match s with
       | [] => []
       | c :: s' => c :: replace s' pattern replacement
       end.

(** ** decodeURIComponent (ECMA-262, Decode with an empty preserve set) *)

Definition hexDigit (c : Z) : option Z :=
  if (48 <=? c) && (c <=? 57) then Some (c - 48)
  else if (65 <=? c) && (c <=? 70) then Some (c - 55)
  else if (97 <=? c) && (c <=? 102) then Some (c - 87)
  else None.

Definition ParseHexOctet (h l : Z) : option Z :=
  match hexDigit h, hexDigit l with
  | Some a, Some b => Some (16 * a + b)
  | _, _ => None
  end.

(** Number of leading 1 bits of an octet (5 stands for five or more). *)
Definition leadingOnes (B : Z) : nat :=
  if B <? 128 then 0
  else if B <? 192 then 1
  else if B <? 224 then 2
  else if B <? 240 then 3
  else if B <? 248 then 4
  else 5.

Definition isContinuation (b : Z) : bool := (128 <=? b) && (b <=? 191).

(** The code point encoded by [Octets], when they are a valid UTF-8
    encoding of a Unicode scalar value (shortest form, no surrogate, at
    most U+10FFFF). *)
Definition utf8CodePoint (Octets : list Z) : option Z :=
  match Octets with
  | [b0; b1] =>
    let V := (b0 - 192) * 64 + (b1 - 128) in
    if isContinuation b1 && (128 <=? V) then Some V else None
  | [b0; b1; b2] =>
    let V := ((b0 - 224) * 64 + (b1 - 128)) * 64 + (b2 - 128) in
    if isContinuation b1 && isContinuation b2 && (2048 <=? V)
       && negb ((55296 <=? V) && (V <=? 57343))
    then Some V else None
  | [b0; b1; b2; b3] =>
    let V := (((b0 - 240) * 64 + (b1 - 128)) * 64 + (b2 - 128)) * 64
             + (b3 - 128) in
    if isContinuation b1 && isContinuation b2 && isContinuation b3
       && (65536 <=? V) && (V <=? 1114111)
    then Some V else None
  | _ => None
  end.

Definition UTF16EncodeCodePoint (cp : Z) : jsstring :=
  if cp <=? 65535 then [cp]
  else [(cp - 65536) / 1024 + 55296; (cp - 65536) mod 1024 + 56320].

(** The Decode loop.  [pending] is [Some (j, Octets)] while a multi-octet
    sequence is being read: [Octets] are the octets read so far and [j + 1]
    more escapes [%XX] must follow immediately. *)
Fixpoint Decode (pending : option (nat * list Z)) (s : jsstring)
  : completion jsstring :=
  match s with
  | [] =>
    match pending with
    | None => Return []
    | Some _ => Throw URIError
    end
  | C :: rest =>
    if C =? 37 then
      match rest with
      | h :: l :: rest' =>
        match ParseHexOctet h l with
        | None => Throw URIError
        | Some B =>
          match pending with
          | None =>
            match leadingOnes B with
            | 0%nat => R <- Decode None rest' ;; Return (B :: R)
            | 2%nat => Decode (Some (0%nat, [B])) rest'
            | 3%nat => Decode (Some (1%nat, [B])) rest'
            | 4%nat => Decode (Some (2%nat, [B])) rest'
            | _ => Throw URIError
            end
          | Some (O, Octets) =>
            match utf8CodePoint (Octets ++ [B]) with
            | None => Throw URIError
            | Some V =>
              R <- Decode None rest' ;; Return (UTF16EncodeCodePoint V ++ R)
            end
          | Some (S j, Octets) => Decode (Some (j, Octets ++ [B])) rest'
          end
        end
      | _ => Throw URIError
      end
    else
      match pending with
      | None => R <- Decode None rest ;; Return (C :: R)
      | Some _ => Throw URIError
      end
  end.

Definition decodeURIComponent (s : jsstring) : completion jsstring :=
  Decode None s.

(** ** Buffer.from(string, 'base64') (Node.js)

    Node's decoder is forgiving: a code unit is cut to its low eight bits,
    a character outside the alphabet is skipped, decoding stops at the first
    [=], and both the standard and the URL-safe alphabet are read.  A last
    group of two or three characters gives one or two octets. *)

Definition unbase64 (c : Z) : option Z :=
  if (65 <=? c) && (c <=? 90) then Some (c - 65)
  else if (97 <=? c) && (c <=? 122) then Some (c - 71)
  else if (48 <=? c) && (c <=? 57) then Some (c + 4)
  else if (c =? 43) || (c =? 45) then Some 62
  else if (c =? 47) || (c =? 95) then Some 63
  else None.

Fixpoint base64_sextets (s : jsstring) : list Z :=
  match s with
  | [] => []
  | u :: rest =>
    let c := u mod 256 in
    match unbase64 c with
    | Some v => v :: base64_sextets rest
    | None => if c =? 61 then [] else base64_sextets rest
    end
  end.

Fixpoint base64_octets (l : list Z) : list Z :=
  match l with
  | s0 :: s1 :: s2 :: s3 :: rest =>
    (s0 * 4 + s1 / 16) :: ((s1 mod 16) * 16 + s2 / 4)
      :: ((s2 mod 4) * 64 + s3) :: base64_octets rest
  | [s0; s1; s2] => [s0 * 4 + s1 / 16; (s1 mod 16) * 16 + s2 / 4]
  | [s0; s1] => [s0 * 4 + s1 / 16]
  | _ => []
  end.

Definition Buffer_from_base64 (s : jsstring) : list Z :=
  base64_octets (base64_sextets s).

(** ** Buffer.prototype.toString() (UTF-8, Node.js)

    Never throws: every maximal ill-formed subsequence becomes U+FFFD (the
    decoder of the WHATWG Encoding standard).  The state is the code point
    under construction, the number of continuation octets still needed and
    the range allowed for the next one. *)

Fixpoint utf8_decode (cp : Z) (needed : nat) (lower upper : Z) (bs : list Z)
  : list Z :=
  match bs with
  | [] =>
    match needed with
    | O => []
    | S _ => [65533]
    end
  | b :: rest =>
    let start :=
      if b <=? 127 then b :: utf8_decode 0 0 128 191 rest
      else if (194 <=? b) && (b <=? 223) then
        utf8_decode (b - 192) 1 128 191 rest
      else if (224 <=? b) && (b <=? 239) then
        utf8_decode (b - 224) 2
          (if b =? 224 then 160 else 128) (if b =? 237 then 159 else 191) rest
      else if (240 <=? b) && (b <=? 244) then
        utf8_decode (b - 240) 3
          (if b =? 240 then 144 else 128) (if b =? 244 then 143 else 191) rest
      else 65533 :: utf8_decode 0 0 128 191 rest in
    match needed with
    | O => start
    | S n =>
      if (lower <=? b) && (b <=? upper) then
        match n with
        | O => (cp * 64 + (b - 128)) :: utf8_decode 0 0 128 191 rest
        | S _ => utf8_decode (cp * 64 + (b - 128)) n 128 191 rest
        end
      else 65533 :: start
    end
  end.

Definition Buffer_toString (bs : list Z) : jsstring :=
  flat_map UTF16EncodeCodePoint (utf8_decode 0 0 128 191 bs).

(** ** libraryFilters.decode (lines 7-9) *)

Definition decode (text : jsstring) : completion jsstring :=
  t <- decodeURIComponent text ;;
  Return (Buffer_toString (Buffer_from_base64 t)).

(** ** The filter of getFilteredLibraryItems (lines 21-28) *)

Definition searchGroups : list jsstring :=
  map lit ["genres"; "tags"; "series"; "authors"; "progress"; "narrators";
           "publishers"; "missing"; "languages"; "tracks"; "ebooks"]%string.

(** The pair [(filterGroup, filterValue)] computed from [filterBy]. *)
Definition filterGroupValue (filterBy : option jsstring)
  : completion (option jsstring * option jsstring) :=
  if truthy_string filterBy then
    match filterBy with
    | Some filterBy =>
      let group :=
        find (fun _group => startsWith filterBy (_group ++ lit "."))
             searchGroups in
      let filterGroup :=
        if truthy_string group then group else Some filterBy in
      match group with
      | Some group =>
        filterValue <- decode (replace filterBy (group ++ lit ".") []) ;;
        Return (filterGroup, Some filterValue)
      | None => Return (filterGroup, None)
      end
    | None => Return (None, None)
    end
  else Return (None, None).

(** ** The encoder of filter tokens *)

Definition isHighSurrogate (u : Z) : bool := (55296 <=? u) && (u <=? 56319).
Definition isLowSurrogate (u : Z) : bool := (56320 <=? u) && (u <=? 57343).

(** String.prototype.isWellFormed: code units in range, no lone surrogate. *)
Fixpoint isWellFormed (s : jsstring) : bool :=
  match s with
  | [] => true
  | u :: rest =>
    if isHighSurrogate u then
      match rest with
      | u2 :: rest2 => isLowSurrogate u2 && isWellFormed rest2
      | [] => false
      end
    else negb (isLowSurrogate u) && (0 <=? u) && (u <=? 65535)
         && isWellFormed rest
  end.

(** The UTF-8 encoding of a code point. *)
Definition utf8_octets (cp : Z) : list Z :=
  if cp <=? 127 then [cp]
  else if cp <=? 2047 then [192 + cp / 64; 128 + cp mod 64]
  else if cp <=? 65535 then
    [224 + cp / 4096; 128 + (cp / 64) mod 64; 128 + cp mod 64]
  else [240 + cp / 262144; 128 + (cp / 4096) mod 64;
        128 + (cp / 64) mod 64; 128 + cp mod 64].

(** Buffer.from(string): the UTF-8 encoding of the string, a lone surrogate
    being written as U+FFFD. *)
Fixpoint Buffer_from_utf8 (s : jsstring) : list Z :=
  match s with
  | [] => []
  | u :: rest =>
    if isHighSurrogate u then
      match rest with
      | u2 :: rest2 =>
        if isLowSurrogate u2 then
          utf8_octets (65536 + (u - 55296) * 1024 + (u2 - 56320))
            ++ Buffer_from_utf8 rest2
        else [239; 191; 189] ++ Buffer_from_utf8 rest
      | [] => [239; 191; 189]
      end
    else if isLowSurrogate u then [239; 191; 189] ++ Buffer_from_utf8 rest
    else utf8_octets u ++ Buffer_from_utf8 rest
  end.

Definition base64_table : jsstring :=
  lit "ABCDEFGHIJKLMNOPQRSTUVWXYZabcdefghijklmnopqrstuvwxyz0123456789+/".

Definition base64_char (v : Z) : Z := nth (Z.to_nat v) base64_table 0.

(** Buffer.prototype.toString('base64'): standard alphabet, padded. *)
Fixpoint Buffer_toString_base64 (bs : list Z) : jsstring :=
  match bs with
  | b0 :: b1 :: b2 :: rest =>
    base64_char (b0 / 4) :: base64_char ((b0 mod 4) * 16 + b1 / 16)
      :: base64_char ((b1 mod 16) * 4 + b2 / 64) :: base64_char (b2 mod 64)
      :: Buffer_toString_base64 rest
  | [b0; b1] =>
    [base64_char (b0 / 4); base64_char ((b0 mod 4) * 16 + b1 / 16);
     base64_char ((b1 mod 16) * 4); 61]
  | [b0] => [base64_char (b0 / 4); base64_char ((b0 mod 4) * 16); 61; 61]
  | [] => []
  end.

(** The characters encodeURIComponent leaves alone:
    letters, digits and [- _ . ! ~ * ' ( )]. *)
Definition uriUnreserved (c : Z) : bool :=
  ((65 <=? c) && (c <=? 90)) || ((97 <=? c) && (c <=? 122))
  || ((48 <=? c) && (c <=? 57))
  || existsb (Z.eqb c) [45; 95; 46; 33; 126; 42; 39; 40; 41].

Definition hexChar (d : Z) : Z := nth (Z.to_nat d) (lit "0123456789ABCDEF") 0.

Definition percentEscape (b : Z) : jsstring :=
  [37; hexChar (b / 16); hexChar (b mod 16)].

(** encodeURIComponent (ECMA-262, Encode): throws on a lone surrogate. *)
Fixpoint Encode (s : jsstring) : completion jsstring :=
  match s with
  | [] => Return []
  | C :: rest =>
    if uriUnreserved C then R <- Encode rest ;; Return (C :: R)
    else if isHighSurrogate C then
      match rest with
      | C2 :: rest2 =>
        if isLowSurrogate C2 then
          R <- Encode rest2 ;;
          Return (flat_map percentEscape
                    (utf8_octets (65536 + (C - 55296) * 1024 + (C2 - 56320)))
                  ++ R)
        else Throw URIError
      | [] => Throw URIError
      end
    else if isLowSurrogate C then Throw URIError
    else R <- Encode rest ;;
         Return (flat_map percentEscape (utf8_octets C) ++ R)
  end.

Definition encodeURIComponent (s : jsstring) : completion jsstring := Encode s.

(** Modelled from the spec: the encoder that produces filter tokens is not
    part of this module; the spec gives a token as the percent-encoding of
    the base64 of the text, that is
    [encodeURIComponent(Buffer.from(text).toString('base64'))]. *)
Definition encode (text : jsstring) : completion jsstring :=
  encodeURIComponent (Buffer_toString_base64 (Buffer_from_utf8 text)).

(** ** Storage rows and API views

    The module reads a few properties of the objects it handles and passes
    the rest along.  [Shapes] collects the parts it never looks into. *)

Class Shapes : Type := {
  FeedRow : Type;            (* a feed model instance *)
  ItemColumns : Type;        (* the other columns of a libraryItem row *)
  BookColumns : Type;        (* the columns of a book row *)
  PodcastRow : Type;         (* a podcast with its episodes *)
  BookSeriesColumns : Type;  (* columns of a bookSeries row but sequence *)
  SeriesColumns : Type;      (* the columns of a series row *)
  SeriesInfo : Type;         (* the series annotation of continue-series *)
  OldFeed : Type;            (* a minified feed *)
  OldItemRest : Type;        (* a minified item but rssFeed and media *)
  OldMediaRest : Type;       (* a minified media but size and metadata *)
  OldMetadataRest : Type;    (* minified metadata but series *)
  OldSeriesRest : Type       (* an old series but rssFeed and books *)
}.

Section Rows.
Context {shapes : Shapes}.

(** The own properties of a libraryItem the module reads, on the model
    instance and on its plain copy ([toJSON()]): the columns and the
    optional [rssFeed], [size] and [series]. *)
Record ItemRow : Type := {
  item_columns : ItemColumns;
  item_rssFeed : option FeedRow;
  item_size : option Z;
  item_series : option SeriesInfo
}.

(** A book model instance with its [libraryItem] association, which
    getSeriesMostRecentlyAdded deletes. *)
Record Book : Type := {
  book_columns : BookColumns;
  book_libraryItem : option ItemRow
}.

Inductive Media : Type :=
| BookMedia (b : Book)
| PodcastMedia (p : PodcastRow).

(** A library item as the filter strategies return it ([li]): a plain
    libraryItem with its media grafted. *)
Record LibraryItem : Type := {
  li_plain : ItemRow;
  li_media : Media
}.

Definition li_rssFeed (li : LibraryItem) : option FeedRow :=
  item_rssFeed (li_plain li).

Definition li_size (li : LibraryItem) : option Z := item_size (li_plain li).

Definition li_series (li : LibraryItem) : option SeriesInfo :=
  item_series (li_plain li).

Record BookSeries : Type := {
  bs_columns : BookSeriesColumns;
  sequence : option jsstring;
  book : Book
}.

(** A series model instance; [feeds] is undefined unless the query
    includes the feed model. *)
Record Series : Type := {
  series_columns : SeriesColumns;
  feeds : option (list FeedRow);
  bookSeries : list BookSeries
}.

Record OldMetadata : Type := {
  metadata_series : option SeriesInfo;
  metadata_rest : OldMetadataRest
}.

Record OldMedia : Type := {
  media_size : option Z;
  media_metadata : OldMetadata;
  media_rest : OldMediaRest
}.

Record OldLibraryItem : Type := {
  rssFeed : option OldFeed;
  media : OldMedia;
  item_rest : OldItemRest
}.

Record OldSeries : Type := {
  series_rssFeed : option OldFeed;
  books : list OldLibraryItem;
  series_rest : OldSeriesRest
}.

Record Library : Type := {
  library_id : jsstring;
  library_mediaType : jsstring
}.

Record Options : Type := {
  filterBy : option jsstring;
  sortBy : option jsstring;
  sortDesc : bool;
  limit : Z;
  offset : Z;
  collapseseries : bool;
  include : list jsstring;
  mediaType : option jsstring
}.

(** [{ libraryItems, count }] as a strategy returns it. *)
Record ItemsPage : Type := {
  page_libraryItems : list LibraryItem;
  page_count : Z
}.

(** [{ rows, count }] of findAndCountAll. *)
Record SeriesPage : Type := {
  rows : list Series;
  rows_count : Z
}.

(** [{ libraryItems, count }] of the shelves. *)
Record ItemsShelf : Type := {
  libraryItems : list OldLibraryItem;
  count : Z
}.

(** [{ series, count }] of the recent series shelf. *)
Record SeriesShelf : Type := {
  series : list OldSeries;
  series_count : Z
}.

(** ** Storage requests and asynchronous functions *)

(** The calls into the storage layer: the two filter strategies and the
    series model.  [Series_findAndCountAll] keeps the parts of the query
    that vary: the library, the limit and whether feeds are included; the
    query always has offset 0 and orders by [createdAt] descending with
    bookSeries, book and libraryItem included. *)
Inductive Request : Type -> Type :=
| Book_getFilteredLibraryItems
    (libraryId userId : jsstring) (filterGroup filterValue : option jsstring)
    (sortBy : option jsstring) (sortDesc collapseseries : bool)
    (include : list jsstring) (limit offset : Z) : Request ItemsPage
| Podcast_getFilteredLibraryItems
    (libraryId userId : jsstring) (filterGroup filterValue : option jsstring)
    (sortBy : option jsstring) (sortDesc : bool)
    (include : list jsstring) (limit offset : Z) : Request ItemsPage
| Book_getContinueSeriesLibraryItems
    (libraryId userId : jsstring) (include : list jsstring) (limit offset : Z)
  : Request ItemsPage
| Series_findAndCountAll
    (libraryId : jsstring) (limit offset : Z) (includeFeed : bool)
  : Request SeriesPage.

(** An async function: it resolves, rejects, or awaits a storage request
    and goes on with the answer. *)
Inductive Async (R : Type) : Type :=
| Resolve (r : R)
| Reject (e : JSError)
| Await {A : Type} (q : Request A) (k : A -> Async R).

End Rows.

Arguments Resolve {shapes R} r.
Arguments Reject {shapes R} e.
Arguments Await {shapes R A} q k.

(** The storage layer answers a request or fails. *)
Definition Storage {shapes : Shapes} : Type :=
  forall A : Type, Request A -> completion A.

Definition SomeRequest {shapes : Shapes} : Type := { A : Type & Request A }.

(** Running an async function against a storage layer: the requests
    issued, in order, and the outcome.  A failed request rejects the
    function (the module catches nothing). *)
Fixpoint run {shapes : Shapes} {R : Type} (db : Storage) (p : Async R)
  : list SomeRequest * completion R :=
  match p with
  | Resolve r => ([], Return r)
  | Reject e => ([], Throw e)
  | Await q k =>
    match db _ q with
    | Return a =>
      let '(issued, outcome) := run db (k a) in
      (existT _ _ q :: issued, outcome)
    | Throw e => ([existT _ _ q], Throw e)
    end
  end.

(** ** The collaborators

    [Projector] is the view-model projector and the feed lookup:
    [getOldLibraryItem(li).toJSONMinified()],
    [getOldFeed(feed).toJSONMinified()] and [s.getOldSeries().toJSON()]. *)
Class Projector {shapes : Shapes} : Type := {
  getOldLibraryItem_toJSONMinified : LibraryItem -> OldLibraryItem;
  getOldFeed_toJSONMinified : FeedRow -> OldFeed;
  getOldSeries_toJSON : Series -> OldSeries
}.

(** The options of a comparison, [{ numeric, sensitivity }]. *)
Record CompareOptions : Type := {
  numeric : bool;
  sensitivity : jsstring
}.

(** [a.localeCompare(b, locales, options)] of the runtime's collator:
    negative, zero or positive.  [locales] is [None] for [undefined], the
    default locale of the host. *)
Class Collator : Type := {
  localeCompare :
    jsstring -> jsstring -> option jsstring -> CompareOptions -> Z
}.

(** ** Array.prototype.sort (V8)

    V8 sorts an array of fewer than 64 elements in one run: it takes the
    longest non-descending or strictly descending prefix (reversing the
    latter) and inserts the other elements one by one at the place a binary
    search finds.  Every decision is a test of [comparefn] being negative.
    Longer arrays are cut into runs made the same way, which are merged by
    a stable merge that tests the same thing; this model sorts every array
    as one run.  When "negative" is the strict part of a total preorder, a
    stable sort has one possible outcome ([stable_sorted_unique] below),
    which is the outcome of this model ([sort_sorted], [sort_stable]). *)
Section ArraySort.
Context {A : Type} (comparefn : A -> A -> Z).

Fixpoint extendRun (isDescending : bool) (previousElement : A) (l : list A)
  : list A * list A :=
  match l with
  | [] => ([], [])
  | currentElement :: l' =>
    let order := comparefn currentElement previousElement in
    if (if isDescending then 0 <=? order else order <? 0) then ([], l)
    else
      let '(run, rest) := extendRun isDescending currentElement l' in
      (currentElement :: run, rest)
  end.

(** The first run, put in ascending order, and the elements after it. *)
Definition CountAndMakeRun (l : list A) : list A * list A :=
  match l with
  | elementHigh :: elementLow :: l' =>
    let order := comparefn elementLow elementHigh in
    let isDescending := order <? 0 in
    let '(run, rest) := extendRun isDescending elementLow l' in
    let run := elementHigh :: elementLow :: run in
    (if isDescending then rev run else run, rest)
  | _ => (l, [])
  end.

(** The binary search of BinaryInsertionSort on the slice [l] between
    [left] and [right], and the insertion of [pivot] where it ends.  The
    slice halves at each step, so [S (length l)] steps are enough. *)
Fixpoint insertPivot (fuel : nat) (pivot : A) (l : list A) : list A :=
  match fuel with
  | O => pivot :: l
  | S fuel' =>
    let mid := Nat.div2 (List.length l) in
    match skipn mid l with
    | [] => [pivot]
    | m :: after =>
      let order := comparefn pivot m in
      if order <? 0 then insertPivot fuel' pivot (firstn mid l) ++ m :: after
      else firstn mid l ++ m :: insertPivot fuel' pivot after
    end
  end.

Definition BinaryInsertionSort (run rest : list A) : list A :=
  fold_left
    (fun sorted pivot => insertPivot (S (List.length sorted)) pivot sorted)
    rest run.

Definition sort (l : list A) : list A :=
  let '(run, rest) := CountAndMakeRun l in
  BinaryInsertionSort run rest.

End ArraySort.

(** ** The module *)

Section LibraryFilters.
Context {shapes : Shapes} {projector : Projector} {collator : Collator}.

Definition set_rssFeed (oldLibraryItem : OldLibraryItem) (v : OldFeed)
  : OldLibraryItem :=
  {| rssFeed := Some v;
     media := media oldLibraryItem;
     item_rest := item_rest oldLibraryItem |}.

Definition set_media_size (oldLibraryItem : OldLibraryItem) (v : option Z)
  : OldLibraryItem :=
  {| rssFeed := rssFeed oldLibraryItem;
     media := {| media_size := v;
                 media_metadata := media_metadata (media oldLibraryItem);
                 media_rest := media_rest (media oldLibraryItem) |};
     item_rest := item_rest oldLibraryItem |}.

Definition set_media_metadata_series (oldLibraryItem : OldLibraryItem)
  (v : SeriesInfo) : OldLibraryItem :=
  {| rssFeed := rssFeed oldLibraryItem;
     media :=
       {| media_size := media_size (media oldLibraryItem);
          media_metadata :=
            {| metadata_series := Some v;
               metadata_rest :=
                 metadata_rest (media_metadata (media oldLibraryItem)) |};
          media_rest := media_rest (media oldLibraryItem) |};
     item_rest := item_rest oldLibraryItem |}.

(** getFilteredLibraryItems (lines 18-35). *)
Definition getFilteredLibraryItems (library : Library) (userId : jsstring)
  (options : Options) : Async ItemsPage :=
  match filterGroupValue (filterBy options) with
  | Throw e => Reject e
  | Return (filterGroup, filterValue) =>
    if match mediaType options with
       | Some mediaType => jsstring_eqb mediaType (lit "book")
       | None => false
       end
    then
      Await (Book_getFilteredLibraryItems (library_id library) userId
               filterGroup filterValue (sortBy options) (sortDesc options)
               (collapseseries options) (include options) (limit options)
               (offset options))
            Resolve
    else
      Await (Podcast_getFilteredLibraryItems (library_id library) userId
               filterGroup filterValue (sortBy options) (sortDesc options)
               (include options) (limit options) (offset options))
            Resolve
  end.

(** The callback of [libraryItems.map] in getLibraryItemsInProgress
    (lines 51-57). *)
Definition inProgress_item (li : LibraryItem) : OldLibraryItem :=
  let oldLibraryItem := getOldLibraryItem_toJSONMinified li in
  let oldLibraryItem :=
    match li_rssFeed li with
    | Some feed => set_rssFeed oldLibraryItem (getOldFeed_toJSONMinified feed)
    | None => oldLibraryItem
    end in
  oldLibraryItem.

(** getLibraryItemsInProgress (lines 46-66). *)
Definition getLibraryItemsInProgress (library : Library) (userId : jsstring)
  (include : list jsstring) (limit : Z) (ebook : bool) : Async ItemsShelf :=
  if jsstring_eqb (library_mediaType library) (lit "book") then
    let filterValue :=
      if ebook then lit "ebook-in-progress" else lit "audio-in-progress" in
    Await (Book_getFilteredLibraryItems (library_id library) userId
             (Some (lit "progress")) (Some filterValue) (Some (lit "progress"))
             true false include limit 0)
          (fun page =>
             Resolve {| libraryItems :=
                          map inProgress_item (page_libraryItems page);
                        count := page_count page |})
  else Resolve {| count := 0; libraryItems := [] |}.

(** The callback of [libraryItems.map] in getLibraryItemsMostRecentlyAdded
    (lines 80-89 and 95-104, the same text in both branches). *)
Definition mostRecentlyAdded_item (li : LibraryItem) : OldLibraryItem :=
  let oldLibraryItem := getOldLibraryItem_toJSONMinified li in
  let oldLibraryItem :=
    match li_rssFeed li with
    | Some feed => set_rssFeed oldLibraryItem (getOldFeed_toJSONMinified feed)
    | None => oldLibraryItem
    end in
  let oldLibraryItem :=
    if truthy_number (li_size li)
       && negb (truthy_number (media_size (media oldLibraryItem)))
    then set_media_size oldLibraryItem (li_size li)
    else oldLibraryItem in
  oldLibraryItem.

(** getLibraryItemsMostRecentlyAdded (lines 76-108). *)
Definition getLibraryItemsMostRecentlyAdded (library : Library)
  (userId : jsstring) (include : list jsstring) (limit : Z)
  : Async ItemsShelf :=
  if jsstring_eqb (library_mediaType library) (lit "book") then
    Await (Book_getFilteredLibraryItems (library_id library) userId
             None None (Some (lit "addedAt")) true false include limit 0)
          (fun page =>
             Resolve {| libraryItems :=
                          map mostRecentlyAdded_item (page_libraryItems page);
                        count := page_count page |})
  else
    Await (Podcast_getFilteredLibraryItems (library_id library) userId
             None None (Some (lit "addedAt")) true include limit 0)
          (fun page =>
             Resolve {| libraryItems :=
                          map mostRecentlyAdded_item (page_libraryItems page);
                        count := page_count page |}).

(** The callback of [libraryItems.map] in getLibraryItemsContinueSeries
    (lines 121-130). *)
Definition continueSeries_item (li : LibraryItem) : OldLibraryItem :=
  let oldLibraryItem := getOldLibraryItem_toJSONMinified li in
  let oldLibraryItem :=
    match li_rssFeed li with
    | Some feed => set_rssFeed oldLibraryItem (getOldFeed_toJSONMinified feed)
    | None => oldLibraryItem
    end in
  let oldLibraryItem :=
    match li_series li with
    | Some series => set_media_metadata_series oldLibraryItem series
    | None => oldLibraryItem
    end in
  oldLibraryItem.

(** getLibraryItemsContinueSeries (lines 118-133). *)
Definition getLibraryItemsContinueSeries (library : Library)
  (userId : jsstring) (include : list jsstring) (limit : Z)
  : Async ItemsShelf :=
  Await (Book_getContinueSeriesLibraryItems (library_id library) userId
           include limit 0)
        (fun page =>
           Resolve {| libraryItems :=
                        map continueSeries_item (page_libraryItems page);
                      count := page_count page |}).

(** The comparator given to [s.bookSeries.sort] (lines 186-193). *)
Definition sequenceCompare (a b : BookSeries) : Z :=
  if negb (truthy_string (sequence a)) then 1
  else if negb (truthy_string (sequence b)) then -1
  else
    match sequence a, sequence b with
    | Some sa, Some sb =>
      localeCompare sa sb None {| numeric := true; sensitivity := lit "base" |}
    | _, _ => 0
    end.

(** [delete bs.book.libraryItem]: the row afterwards. *)
Definition deleteLibraryItem (bs : BookSeries) : BookSeries :=
  {| bs_columns := bs_columns bs;
     sequence := sequence bs;
     book := {| book_columns := book_columns (book bs);
                book_libraryItem := None |} |}.

(** The old item made of the plain [libraryItem] of [bs] with [bs.book],
    already without its [libraryItem], as media (lines 197-198). *)
Definition oldLibraryItemOf (bs : BookSeries) (libraryItem : ItemRow)
  : OldLibraryItem :=
  getOldLibraryItem_toJSONMinified
    {| li_plain := libraryItem;
       li_media := BookMedia (book (deleteLibraryItem bs)) |}.

(** [s.bookSeries.map(bs => ...)] (lines 194-200) with its effect on the
    rows: the old items, or the TypeError of [undefined.toJSON()], and the
    bookSeries as the callback leaves them, each visited book without its
    [libraryItem]. *)
Fixpoint mapBookSeries (l : list BookSeries)
  : completion (list OldLibraryItem) * list BookSeries :=
  match l with
  | [] => (Return [], [])
  | bs :: l' =>
    match book_libraryItem (book bs) with
    | None => (Throw TypeError, l)
    | Some row =>
      let libraryItem := row in
      let oldLibraryItem := oldLibraryItemOf bs libraryItem in
      let '(outcome, l'') := mapBookSeries l' in
      (olds <- outcome ;; Return (oldLibraryItem :: olds),
       deleteLibraryItem bs :: l'')
    end
  end.

(** The body of [for (const s of series)] (lines 179-201): the old series
    and the row [s] as the body leaves it. *)
Definition oldSeriesOf (s : Series) : completion OldSeries * Series :=
  let oldSeries := getOldSeries_toJSON s in
  let oldSeries :=
    match feeds s with
    | Some (feed :: _) =>
      {| series_rssFeed := Some (getOldFeed_toJSONMinified feed);
         books := books oldSeries;
         series_rest := series_rest oldSeries |}
    | _ => oldSeries
    end in
  let sorted := sort sequenceCompare (bookSeries s) in
  let '(outcome, bookSeries') := mapBookSeries sorted in
  (olds <- outcome ;;
   Return {| series_rssFeed := series_rssFeed oldSeries;
             books := olds;
             series_rest := series_rest oldSeries |},
   {| series_columns := series_columns s;
      feeds := feeds s;
      bookSeries := bookSeries' |}).

(** The loop over the rows: [allOldSeries] and the rows as left. *)
Fixpoint allOldSeriesOf (series : list Series)
  : completion (list OldSeries) * list Series :=
  match series with
  | [] => (Return [], [])
  | s :: series' =>
    match oldSeriesOf s with
    | (Throw e, s') => (Throw e, s' :: series')
    | (Return oldSeries, s') =>
      let '(outcome, series'') := allOldSeriesOf series' in
      (allOldSeries <- outcome ;; Return (oldSeries :: allOldSeries),
       s' :: series'')
    end
  end.

(** getSeriesMostRecentlyAdded (lines 142-208).  The function resolves to
    [{ series, count }]; the second component is the state in which it
    leaves the rows the storage layer handed out.  The debug log line is
    left out. *)
Definition getSeriesMostRecentlyAdded (library : Library)
  (include : list jsstring) (limit : Z) : Async (SeriesShelf * list Series) :=
  let seriesIncludes := existsb (jsstring_eqb (lit "rssfeed")) include in
  Await (Series_findAndCountAll (library_id library) limit 0 seriesIncludes)
        (fun page =>
           match allOldSeriesOf (rows page) with
           | (Return allOldSeries, series') =>
             Resolve ({| series := allOldSeries;
                         series_count := rows_count page |}, series')
           | (Throw e, _) => Reject e
           end).

End LibraryFilters.

(** ** Notions of the properties *)

Definition isAscii (c : Z) : Prop := 0 <= c < 128.

Definition isOctet (b : Z) : Prop := 0 <= b < 256.

(** Unicode scalar values: code points that are no surrogates. *)
Definition isScalar (cp : Z) : Prop :=
  0 <= cp <= 1114111 /\ ~ (55296 <= cp <= 57343).

(** What the spec calls valid base64 (RFC 4648): groups of four characters
    of the standard alphabet, the last one padded with [=]. *)
Definition isBase64Char (c : Z) : bool :=
  ((65 <=? c) && (c <=? 90)) || ((97 <=? c) && (c <=? 122))
  || ((48 <=? c) && (c <=? 57)) || (c =? 43) || (c =? 47).

Fixpoint validBase64 (s : jsstring) : bool :=
  match s with
  | [] => true
  | [a; b; c; d] =>
    isBase64Char a && isBase64Char b
    && (((c =? 61) && (d =? 61))
        || (isBase64Char c && ((d =? 61) || isBase64Char d)))
  | a :: b :: c :: d :: rest =>
    isBase64Char a && isBase64Char b && isBase64Char c && isBase64Char d
    && validBase64 rest
  | _ => false
  end.

(** Octets are valid text when they are the UTF-8 encoding of the string
    they decode to. *)
Definition validUtf8 (bs : list Z) : bool :=
  if list_eq_dec Z.eq_dec (Buffer_from_utf8 (Buffer_toString bs)) bs
  then true else false.

(** The size fallback of the spec's ResultEnricher, as a relation between
    an item of the strategy and the old item returned for it: a truthy
    storage-level size is found in a media payload that had none. *)
Definition sizeFallback {shapes : Shapes} {projector : Projector}
  (li : LibraryItem) (oldLibraryItem : OldLibraryItem) : Prop :=
  truthy_number (li_size li) = true ->
  truthy_number (media_size (media (getOldLibraryItem_toJSONMinified li)))
  = false ->
  media_size (media oldLibraryItem) = li_size li.

(** The laws of a collator's compare function, for the comparison the
    module makes (default locale, [numeric: true], [sensitivity: 'base']):
    it is a consistent comparator, the sign of [a] against [b] is opposite
    to that of [b] against [a], and "at most" is transitive. *)
Class ConsistentCollator (collator : Collator) : Prop := {
  localeCompare_opposite :
    forall a b,
      localeCompare a b None {| numeric := true; sensitivity := lit "base" |}
      < 0
      <-> 0 < localeCompare b a None
                {| numeric := true; sensitivity := lit "base" |};
  localeCompare_transitive :
    forall a b c,
      localeCompare a b None {| numeric := true; sensitivity := lit "base" |}
      <= 0 ->
      localeCompare b c None {| numeric := true; sensitivity := lit "base" |}
      <= 0 ->
      localeCompare a c None {| numeric := true; sensitivity := lit "base" |}
      <= 0
}.

(** The order of sequences the spec describes: a missing or empty sequence
    comes after every other one, and two sequences are in the order of the
    collator of the default locale with [numeric: true] and
    [sensitivity: 'base']. *)
Definition sequenceOrder {collator : Collator} (a b : option jsstring)
  : Prop :=
  match a, b with
  | Some ((_ :: _) as sa), Some ((_ :: _) as sb) =>
    localeCompare sa sb None {| numeric := true; sensitivity := lit "base" |}
    <= 0
  | Some (_ :: _), _ => True
  | _, Some (_ :: _) => False
  | _, _ => True
  end.

Definition bySequence {shapes : Shapes} {collator : Collator}
  (a b : BookSeries) : Prop :=
  sequenceOrder (sequence a) (sequence b).

(** Every book of the rows comes with its libraryItem, as the query of
    getSeriesMostRecentlyAdded includes it. *)
Definition libraryItemsLoaded {shapes : Shapes} (l : list BookSeries) : Prop :=
  Forall (fun bs => book_libraryItem (book bs) <> None) l.

(** The rows after getSeriesMostRecentlyAdded: each series with its
    bookSeries sorted and the libraryItem of every book deleted. *)
Definition seriesAsLeft {shapes : Shapes} {collator : Collator} (s : Series)
  : Series :=
  {| series_columns := series_columns s;
     feeds := feeds s;
     bookSeries :=
       map deleteLibraryItem (sort sequenceCompare (bookSeries s)) |}.

(** [olds] are the old items of the rows [l], one for one, in order. *)
Definition oldItemsOf {shapes : Shapes} {projector : Projector}
  (l : list BookSeries) (olds : list OldLibraryItem) : Prop :=
  Forall2 (fun bs old =>
             exists libraryItem,
               book_libraryItem (book bs) = Some libraryItem
               /\ old = oldLibraryItemOf bs libraryItem)
          l olds.

(** Two elements are equivalent for a comparator when neither comes
    before the other. *)
Definition equivalent {A : Type} (comparefn : A -> A -> Z) (x y : A) : bool :=
  negb (comparefn x y <? 0) && negb (comparefn y x <? 0).

(** ** The numeric, case-blind order

    The order the spec gives to sequences, in its words: numeric
    substrings compare by value and case is ignored.  It is an order of
    plain strings, made of ASCII letters and digits: a run of digits
    counts as the number it writes, letters count without their case, and
    a number sorts before a letter.  [collationKey] gives every other code
    unit a place before the digits, by value, so that the key is defined
    on all strings; that place is not the runtime's, and the properties
    use the order on plain strings only. *)

Definition isDigit (c : Z) : bool := (48 <=? c) && (c <=? 57).

Definition primaryWeight (c : Z) : Z * Z :=
  if (65 <=? c) && (c <=? 90) then (2, c + 32)
  else if (97 <=? c) && (c <=? 122) then (2, c)
  else (0, c).

Definition flushNumber (number : option Z) : list (Z * Z) :=
  match number with
  | Some n => [(1, n)]
  | None => []
  end.

Fixpoint collationKey (number : option Z) (s : jsstring) : list (Z * Z) :=
  match s with
  | [] => flushNumber number
  | c :: rest =>
    if isDigit c then
      collationKey
        (Some (10 * match number with Some n => n | None => 0 end + (c - 48)))
        rest
    else flushNumber number ++ primaryWeight c :: collationKey None rest
  end.

Fixpoint compareKeys (k1 k2 : list (Z * Z)) : Z :=
  match k1, k2 with
  | [], [] => 0
  | [], _ :: _ => -1
  | _ :: _, [] => 1
  | (c1, v1) :: k1', (c2, v2) :: k2' =>
    if c1 <? c2 then -1
    else if c2 <? c1 then 1
    else if v1 <? v2 then -1
    else if v2 <? v1 then 1
    else compareKeys k1' k2'
  end.

Definition numericAwareCompare (a b : jsstring) : Z :=
  compareKeys (collationKey None a) (collationKey None b).

Definition isAlnum (c : Z) : bool :=
  isDigit c || ((65 <=? c) && (c <=? 90)) || ((97 <=? c) && (c <=? 122)).

(** Plain strings: ASCII letters and digits, at most 254 of them (the
    runtime's collation reads a run of more than 254 digits in pieces). *)
Definition isPlain (s : jsstring) : bool :=
  (Z.of_nat (List.length s) <=? 254) && forallb isAlnum s.

(** What [numeric: true] and [sensitivity: 'base'] ask of the runtime's
    collator, for the default locale: it is a consistent comparator, and on
    plain strings it puts first what the numeric, case-blind order puts
    first. *)
Class NumericBaseCollator (collator : Collator) : Prop := {
  numericBase_consistent :: ConsistentCollator collator;
  localeCompare_numericBase :
    forall a b,
      isPlain a = true -> isPlain b = true ->
      (localeCompare a b None {| numeric := true; sensitivity := lit "base" |}
       < 0
       <-> numericAwareCompare a b < 0)
}.



(** ** A sample collator

    A collator for concrete runs: it compares all strings, whatever the
    locales and the options, by their keys.  On plain strings this is the
    order of the runtime's collator with [numeric: true] and
    [sensitivity: 'base']; on other strings it is a consistent order, not
    the runtime's. *)
#[export] Instance referenceCollator : Collator :=
  {| localeCompare a b _ _ :=
       compareKeys (collationKey None a) (collationKey None b) |}.

(** ** Sample collaborators, used to run the module on concrete rows *)

#[export] Instance sampleShapes : Shapes :=
  {| FeedRow := jsstring;
     ItemColumns := jsstring;
     BookColumns := jsstring;
     PodcastRow := jsstring;
     BookSeriesColumns := jsstring;
     SeriesColumns := jsstring;
     SeriesInfo := jsstring;
     OldFeed := jsstring;
     OldItemRest := jsstring;
     OldMediaRest := jsstring;
     OldMetadataRest := unit;
     OldSeriesRest := jsstring |}.

(** A projector whose minified media carries no size. *)
#[export] Instance sampleProjector : Projector :=
  {| getOldLibraryItem_toJSONMinified li :=
       {| rssFeed := None;
          media :=
            {| media_size := None;
               media_metadata :=
                 {| metadata_series := None; metadata_rest := tt |};
               media_rest :=
                 match li_media li with
                 | BookMedia b => book_columns b
                 | PodcastMedia p => p
                 end |};
          item_rest := item_columns (li_plain li) |};
     getOldFeed_toJSONMinified feed := feed;
     getOldSeries_toJSON s :=
       {| series_rssFeed := None;
          books := [];
          series_rest := series_columns s |} |}.

Definition sampleRow (title : string) (size : option Z) : ItemRow :=
  {| item_columns := lit title;
     item_rssFeed := None;
     item_size := size;
     item_series := None |}.

Definition sampleBook (title : string) : Book :=
  {| book_columns := lit title;
     book_libraryItem := Some (sampleRow title None) |}.

Definition sampleItem (title : string) (size : option Z) : LibraryItem :=
  {| li_plain := sampleRow title size;
     li_media :=
       BookMedia {| book_columns := lit title; book_libraryItem := None |} |}.

Definition sampleBookSeries (title : string) (seq : option jsstring)
  : BookSeries :=
  {| bs_columns := lit title; sequence := seq; book := sampleBook title |}.

Definition sampleSeries : Series :=
  {| series_columns := lit "S";
     feeds := None;
     bookSeries :=
       [sampleBookSeries "three" (Some (lit "3"));
        sampleBookSeries "one" (Some (lit "1"));
        sampleBookSeries "ten" (Some (lit "10"));
        sampleBookSeries "extra" None] |}.

(** Series [A] with the books 2 and 1, and series [B] without books. *)
Definition seriesA : Series :=
  {| series_columns := lit "A";
     feeds := Some [lit "feed of A"];
     bookSeries :=
       [sampleBookSeries "second" (Some (lit "2"));
        sampleBookSeries "first" (Some (lit "1"))] |}.

Definition seriesB : Series :=
  {| series_columns := lit "B"; feeds := Some []; bookSeries := [] |}.

Definition sampleRows : list Series := [sampleSeries; seriesA; seriesB].

(** A storage layer that answers every item request with one book of
    size 5 and the series request with [sampleRows]. *)
Definition sampleStorage : Storage :=
  fun A q =>
    match q in Request A return completion A with
    | Book_getFilteredLibraryItems _ _ _ _ _ _ _ _ _ _
    | Podcast_getFilteredLibraryItems _ _ _ _ _ _ _ _ _
    | Book_getContinueSeriesLibraryItems _ _ _ _ _ =>
      Return {| page_libraryItems := [sampleItem "Dune" (Some 5)];
                page_count := 1 |}
    | Series_findAndCountAll _ _ _ _ =>
      Return {| rows := sampleRows; rows_count := 3 |}
    end.

Definition podcastLibrary : Library :=
  {| library_id := lit "lib_podcasts"; library_mediaType := lit "podcast" |}.

Definition bookLibrary : Library :=
  {| library_id := lit "lib_books"; library_mediaType := lit "book" |}.

(** A storage layer with no rows: every answer is the empty page. *)
Definition emptyStorage : Storage :=
  fun A q =>
    match q in Request A return completion A with
    | Book_getFilteredLibraryItems _ _ _ _ _ _ _ _ _ _
    | Podcast_getFilteredLibraryItems _ _ _ _ _ _ _ _ _
    | Book_getContinueSeriesLibraryItems _ _ _ _ _ =>
      Return {| page_libraryItems := []; page_count := 0 |}
    | Series_findAndCountAll _ _ _ _ =>
      Return {| rows := []; rows_count := 0 |}
    end.

(** Options with a tag filter and no media type. *)
Definition sampleOptions : Options :=
  {| filterBy := Some (lit "tags.Zm9v");
     sortBy := Some (lit "addedAt");
     sortDesc := true;
     limit := 10;
     offset := 0;
     collapseseries := true;
     include := [];
     mediaType := None |}.

(** ** Notions of the further properties *)

(** The library, the limit and the offset a storage request carries. *)
Definition request_libraryId {shapes : Shapes} (r : SomeRequest) : jsstring :=
  match projT2 r with
  | Book_getFilteredLibraryItems libraryId _ _ _ _ _ _ _ _ _
  | Podcast_getFilteredLibraryItems libraryId _ _ _ _ _ _ _ _
  | Book_getContinueSeriesLibraryItems libraryId _ _ _ _
  | Series_findAndCountAll libraryId _ _ _ => libraryId
  end.

Definition request_limit {shapes : Shapes} (r : SomeRequest) : Z :=
  match projT2 r with
  | Book_getFilteredLibraryItems _ _ _ _ _ _ _ _ limit _
  | Podcast_getFilteredLibraryItems _ _ _ _ _ _ _ limit _
  | Book_getContinueSeriesLibraryItems _ _ _ limit _
  | Series_findAndCountAll _ limit _ _ => limit
  end.

Definition request_offset {shapes : Shapes} (r : SomeRequest) : Z :=
  match projT2 r with
  | Book_getFilteredLibraryItems _ _ _ _ _ _ _ _ _ offset
  | Podcast_getFilteredLibraryItems _ _ _ _ _ _ _ _ offset
  | Book_getContinueSeriesLibraryItems _ _ _ _ offset
  | Series_findAndCountAll _ _ offset _ => offset
  end.

(** Options whose filter is a tag token with a bad escape. *)
Definition badTokenOptions : Options :=
  {| filterBy := Some (lit "tags.%zz");
     sortBy := None;
     sortDesc := false;
     limit := 10;
     offset := 20;
     collapseseries := false;
     include := [];
     mediaType := Some (lit "book") |}.

(** What every item shelf does to an item: the old item is that of the
    projector but for its feed, which is the minified [li.rssFeed] when
    there is one, and for the size and the series of its media, of which
    nothing is said here. *)
Definition enriched {shapes : Shapes} {projector : Projector}
  (li : LibraryItem) (oldLibraryItem : OldLibraryItem) : Prop :=
  item_rest oldLibraryItem = item_rest (getOldLibraryItem_toJSONMinified li)
  /\ media_rest (media oldLibraryItem)
     = media_rest (media (getOldLibraryItem_toJSONMinified li))
  /\ metadata_rest (media_metadata (media oldLibraryItem))
     = metadata_rest
         (media_metadata (media (getOldLibraryItem_toJSONMinified li)))
  /\ rssFeed oldLibraryItem
     = match li_rssFeed li with
       | Some feed => Some (getOldFeed_toJSONMinified feed)
       | None => rssFeed (getOldLibraryItem_toJSONMinified li)
       end.

Definition hasSequence {shapes : Shapes} (bs : BookSeries) : bool :=
  truthy_string (sequence bs).

Definition missingSequence {shapes : Shapes} (bs : BookSeries) : bool :=
  negb (truthy_string (sequence bs)).

(** A bookSeries row whose book came without its libraryItem. *)
Definition libraryItemMissing {shapes : Shapes} (bs : BookSeries) : Prop :=
  book_libraryItem (book bs) = None.

(** What getSeriesMostRecentlyAdded makes of a series row: the old series
    of the projector with the minified first feed, when the row has feeds,
    and as many books as the row has bookSeries. *)
Definition oldSeriesFor {shapes : Shapes} {projector : Projector}
  (s : Series) (oldSeries : OldSeries) : Prop :=
  series_rest oldSeries = series_rest (getOldSeries_toJSON s)
  /\ series_rssFeed oldSeries
     = match feeds s with
       | Some (feed :: _) => Some (getOldFeed_toJSONMinified feed)
       | _ => series_rssFeed (getOldSeries_toJSON s)
       end
  /\ List.length (books oldSeries) = List.length (bookSeries s).

(** A storage layer that hands out the given series rows. *)
Definition storageOf (series : list Series) : Storage :=
  fun A q =>
    match q in Request A return completion A with
    | Book_getFilteredLibraryItems _ _ _ _ _ _ _ _ _ _
    | Podcast_getFilteredLibraryItems _ _ _ _ _ _ _ _ _
    | Book_getContinueSeriesLibraryItems _ _ _ _ _ =>
      Return {| page_libraryItems := []; page_count := 0 |}
    | Series_findAndCountAll _ _ _ _ =>
      Return {| rows := series;
                rows_count := Z.of_nat (List.length series) |}
    end.

(** [x] is not after [y] as far as the elements that go last are
    concerned: when [x] goes last, so does [y]. *)
Definition lastLe {A : Type} (last : A -> bool) (x y : A) : Prop :=
  last x = true -> last y = true.

(** The states of the UTF-8 decoder of [Buffer_toString] that can be
    reached: with [needed] continuation octets to come, the code point
    under construction and the range of the next octet are such that the
    code point, once complete, is a Unicode scalar value. *)
Definition utf8Pending (cp : Z) (needed : nat) (lower upper : Z) : Prop :=
  match needed with
  | 0%nat => True
  | 1%nat =>
    128 <= lower /\ upper <= 191 /\ 2 <= cp <= 17407 /\ ~ (864 <= cp <= 895)
  | 2%nat =>
    128 <= lower /\ upper <= 191
    /\ ((0 <= cp <= 15 /\ (cp = 0 -> 160 <= lower) /\ (cp = 13 -> upper <= 159))
        \/ 16 <= cp <= 271)
  | 3%nat =>
    128 <= lower /\ upper <= 191 /\ 0 <= cp <= 4
    /\ (cp = 0 -> 144 <= lower) /\ (cp = 4 -> upper <= 143)
  | _ => False
  end.

(** A series whose one book came without its libraryItem. *)
Definition orphanSeries : Series :=
  {| series_columns := lit "O";
     feeds := None;
     bookSeries :=
       [{| bs_columns := lit "orphan";
           sequence := Some (lit "1");
           book := {| book_columns := lit "orphan";
                      book_libraryItem := None |} |}] |}.

(** Options with a media type that is neither book nor podcast, and a tag
    token with a bad escape. *)
Definition videoBadTokenOptions : Options :=
  {| filterBy := Some (lit "tags.%zz");
     sortBy := None;
     sortDesc := false;
     limit := 10;
     offset := 0;
     collapseseries := false;
     include := [];
     mediaType := Some (lit "video") |}.

(** * Properties *)

(** ** Strings *)

Lemma startsWith_app (p s : jsstring) : startsWith (p ++ s) p = true.
Proof.
  induction p as [|c p IH]; simpl; [reflexivity|].
  now rewrite Z.eqb_refl, IH.
Qed.

Lemma startsWith_inv (p s : jsstring) :
  startsWith s p = true -> s = p ++ skipn (List.length p) s.
Proof.
  revert s; induction p as [|c p IH]; intros s H; simpl in *; [reflexivity|].
  destruct s as [|d s]; [discriminate|].
  apply andb_prop in H; destruct H as [Hc Hp].
  apply Z.eqb_eq in Hc; subst d.
  simpl. f_equal. now apply IH.
Qed.

Lemma startsWith_iff (p s : jsstring) :
  startsWith s p = true <-> exists rest, s = p ++ rest.
Proof.
  split.
  - intros H. eexists. now apply startsWith_inv.
  - intros [rest ->]. apply startsWith_app.
Qed.

Lemma skipn_length_app (p s : jsstring) : skipn (List.length p) (p ++ s) = s.
Proof. induction p; simpl; auto. Qed.

Lemma replace_prefix (p s r : jsstring) : replace (p ++ s) p r = r ++ s.
Proof.
  destruct (p ++ s) eqn:E; simpl; rewrite <- E;
    now rewrite startsWith_app, skipn_length_app.
Qed.

Lemma find_all_false {A : Type} (f : A -> bool) (l : list A) :
  (forall x, In x l -> f x = false) -> find f l = None.
Proof.
  induction l as [|a l IH]; intros H; simpl; [reflexivity|].
  rewrite (H a (or_introl eq_refl)). apply IH. intros x Hx. apply H. now right.
Qed.

(** The known groups do not overlap: the group found is the one the token
    starts with. *)
Lemma find_searchGroup (g token : jsstring) :
  In g searchGroups ->
  find (fun _group => startsWith (g ++ lit "." ++ token) (_group ++ lit "."))
       searchGroups = Some g.
Proof.
  intros H. simpl in H.
  repeat (destruct H as [<-|H]; [reflexivity|]).
  contradiction.
Qed.

Example decode_Fantasy :
  decode (lit "RmFudGFzeQ%3D%3D") = Return (lit "Fantasy").
Proof. reflexivity. Qed.

Example encode_Fantasy :
  encode (lit "Fantasy") = Return (lit "RmFudGFzeQ%3D%3D").
Proof. reflexivity. Qed.

Example decodeURIComponent_euro :
  decodeURIComponent (lit "a%E2%82%ACb") = Return [97; 8364; 98].
Proof. reflexivity. Qed.

Example decodeURIComponent_astral :
  decodeURIComponent (lit "%F0%9F%98%80") = Return [55357; 56832].
Proof. reflexivity. Qed.

Example decodeURIComponent_malformed :
  map decodeURIComponent
      [lit "%"; lit "%4"; lit "%zz"; lit "%C0%80"; lit "%ED%A0%80";
       lit "%E2%82"; lit "%E2x82"; lit "%80"; lit "%F8%80%80%80%80"]
  = repeat (Throw URIError) 9.
Proof. reflexivity. Qed.

Example Buffer_from_base64_forgiving :
  map Buffer_from_base64
      [lit "QUJD"; lit "QUI="; lit "QQ=="; lit "QUI"; lit "Q U!J D";
       lit "QQ==QUJD"; lit "Q"; lit "-_-_"; lit "+/+/"]
  = [[65; 66; 67]; [65; 66]; [65]; [65; 66]; [65; 66; 67]; [65]; [];
     [251; 255; 191]; [251; 255; 191]].
Proof. reflexivity. Qed.

Example Buffer_toString_replacement :
  map Buffer_toString
      [[255]; [226; 130]; [224; 128]; [192; 128]; [237; 160; 128];
       [240; 159; 146]; [97; 128; 98]]
  = [[65533]; [65533]; [65533; 65533]; [65533; 65533];
     [65533; 65533; 65533]; [65533]; [97; 65533; 98]].
Proof. reflexivity. Qed.

Example encode_decode_astral :
  (t <- encode [104; 233; 8364; 55357; 56832] ;; decode t)
  = Return [104; 233; 8364; 55357; 56832].
Proof. reflexivity. Qed.

(** C1.  The filter of getFilteredLibraryItems: a null or empty [filterBy]
    gives no group and no value; a [filterBy] made of a known group, a dot
    and a token gives that group and the decoding of the token (or the
    exception of the decoding); any other [filterBy] is the group itself,
    without a value.  So ["genres." + encode("Fantasy")] gives group
    [genres] and value [Fantasy], and ["somecustomfield"] gives itself. *)
Theorem filterGroupValue_spec (filterBy : option jsstring) :
  (truthy_string filterBy = false ->
   filterGroupValue filterBy = Return (None, None))
  /\ (forall g token,
        In g searchGroups ->
        filterBy = Some (g ++ lit "." ++ token) ->
        filterGroupValue filterBy
        = (value <- decode token ;; Return (Some g, Some value)))
  /\ (forall s,
        filterBy = Some s -> s <> [] ->
        (forall g, In g searchGroups -> startsWith s (g ++ lit ".") = false) ->
        filterGroupValue filterBy = Return (Some s, None))
  /\ (token <- encode (lit "Fantasy") ;;
      filterGroupValue (Some (lit "genres." ++ token)))
     = Return (Some (lit "genres"), Some (lit "Fantasy"))
  /\ filterGroupValue (Some (lit "somecustomfield"))
     = Return (Some (lit "somecustomfield"), None).
Proof.
  split; [|split; [|split; [|split]]].
  - intros H. unfold filterGroupValue. now rewrite H.
  - intros g token Hg ->.
    assert (Hne : truthy_string (Some (g ++ lit "." ++ token)) = true).
    { simpl in Hg. repeat (destruct Hg as [<-|Hg]; [reflexivity|]).
      contradiction. }
    unfold filterGroupValue. rewrite Hne.
    rewrite (find_searchGroup g token Hg).
    rewrite (app_assoc g (lit ".") token), replace_prefix. simpl app.
    assert (Hg' : truthy_string (Some g) = true).
    { simpl in Hg. repeat (destruct Hg as [<-|Hg]; [reflexivity|]).
      contradiction. }
    rewrite Hg'. reflexivity.
  - intros s -> Hs Hnone.
    unfold filterGroupValue.
    destruct s as [|c s]; [contradiction|].
    change (truthy_string (Some (c :: s))) with true. cbv iota.
    rewrite (find_all_false (A := list Z)
               (fun _group => startsWith (c :: s) (_group ++ lit "."))
               searchGroups Hnone).
    reflexivity.
  - reflexivity.
  - reflexivity.
Qed.

(** ** Percent-encoding *)

(** A property checked on every number below [n] holds below [n]. *)
Lemma below_forallb (f : Z -> bool) (n : nat) :
  forallb f (map Z.of_nat (seq 0 n)) = true ->
  forall d, 0 <= d < Z.of_nat n -> f d = true.
Proof.
  intros H d Hd. rewrite forallb_forall in H. apply H.
  rewrite <- (Z2Nat.id d) by lia. apply in_map. apply in_seq. lia.
Qed.

Lemma hexDigit_hexChar (d : Z) :
  0 <= d < 16 -> hexDigit (hexChar d) = Some d.
Proof.
  intros Hd.
  pose proof (below_forallb
    (fun d => match hexDigit (hexChar d) with
              | Some d' => d' =? d
              | None => false
              end) 16 eq_refl d Hd) as H.
  cbv beta in H. destruct (hexDigit (hexChar d)); [|discriminate].
  apply Z.eqb_eq in H. now subst.
Qed.

Lemma ParseHexOctet_hexChar (b : Z) :
  0 <= b < 256 ->
  ParseHexOctet (hexChar (b / 16)) (hexChar (b mod 16)) = Some b.
Proof.
  intros Hb. unfold ParseHexOctet.
  rewrite !hexDigit_hexChar.
  - f_equal. pose proof (Z.div_mod b 16). lia.
  - apply Z.mod_pos_bound. lia.
  - split; [apply Z.div_pos; lia | apply Z.div_lt_upper_bound; lia].
Qed.

Ltac zbool :=
  repeat match goal with
         | |- context [?a <=? ?b] => destruct (Z.leb_spec a b); try lia
         | |- context [?a <? ?b] => destruct (Z.ltb_spec a b); try lia
         | |- context [?a =? ?b] => destruct (Z.eqb_spec a b); try lia
         end.

Lemma uriUnreserved_not_percent (c : Z) : uriUnreserved c = true -> c <> 37.
Proof. intros H ->. discriminate. Qed.

Lemma Encode_unreserved (c : Z) (s : jsstring) :
  uriUnreserved c = true ->
  Encode (c :: s) = (R <- Encode s ;; Return (c :: R)).
Proof. intros H. cbn [Encode]. now rewrite H. Qed.

Lemma Encode_escaped (c : Z) (s : jsstring) :
  uriUnreserved c = false -> isAscii c ->
  Encode (c :: s) = (R <- Encode s ;; Return (percentEscape c ++ R)).
Proof.
  intros H Hc. unfold isAscii in Hc. cbn [Encode]. rewrite H.
  assert (isHighSurrogate c = false) as ->
      by (unfold isHighSurrogate; zbool; reflexivity).
  assert (isLowSurrogate c = false) as ->
      by (unfold isLowSurrogate; zbool; reflexivity).
  assert (utf8_octets c = [c]) as ->
      by (unfold utf8_octets; zbool; reflexivity).
  reflexivity.
Qed.

Lemma Decode_unreserved (c : Z) (t : jsstring) :
  c <> 37 -> Decode None (c :: t) = (R <- Decode None t ;; Return (c :: R)).
Proof. intros H. cbn [Decode]. now destruct (Z.eqb_spec c 37). Qed.

Lemma Decode_escaped (c : Z) (t : jsstring) :
  isAscii c ->
  Decode None (percentEscape c ++ t)
  = (R <- Decode None t ;; Return (c :: R)).
Proof.
  intros Hc. unfold isAscii in Hc. unfold percentEscape.
  cbn [app Decode]. rewrite Z.eqb_refl.
  rewrite ParseHexOctet_hexChar by lia.
  assert (leadingOnes c = 0%nat) as ->
      by (unfold leadingOnes; zbool; reflexivity).
  reflexivity.
Qed.

(** decodeURIComponent undoes encodeURIComponent on ASCII text. *)
Lemma Decode_Encode_ascii (s : jsstring) :
  Forall isAscii s -> (t <- Encode s ;; Decode None t) = Return s.
Proof.
  induction 1 as [|c s Hc Hs IH]; [reflexivity|].
  destruct (uriUnreserved c) eqn:Hu.
  - rewrite Encode_unreserved by assumption.
    destruct (Encode s) as [t|e]; [|discriminate]. cbn [cbind] in *.
    rewrite Decode_unreserved by now apply uriUnreserved_not_percent.
    now rewrite IH.
  - rewrite Encode_escaped by assumption.
    destruct (Encode s) as [t|e]; [|discriminate]. cbn [cbind] in *.
    rewrite Decode_escaped by assumption.
    now rewrite IH.
Qed.

(** ** Base64 *)

Lemma list_ind3 {A : Type} (P : list A -> Prop) :
  P [] -> (forall a, P [a]) -> (forall a b, P [a; b]) ->
  (forall a b c l, P l -> P (a :: b :: c :: l)) ->
  forall l, P l.
Proof.
  intros H0 H1 H2 H3.
  fix IH 1. intros [|a [|b [|c l]]];
    [exact H0 | exact (H1 a) | exact (H2 a b) | exact (H3 a b c l (IH l))].
Qed.

Lemma base64_char_facts (v : Z) :
  0 <= v < 64 ->
  unbase64 (base64_char v) = Some v
  /\ base64_char v mod 256 = base64_char v
  /\ isAscii (base64_char v).
Proof.
  intros Hv.
  pose proof (below_forallb
    (fun v => match unbase64 (base64_char v) with
              | Some v' => (v' =? v) && (base64_char v mod 256 =? base64_char v)
                           && (0 <=? base64_char v) && (base64_char v <? 128)
              | None => false
              end) 64 eq_refl v Hv) as H.
  cbv beta in H. destruct (unbase64 (base64_char v)); [|discriminate].
  repeat (apply andb_prop in H; destruct H as [H ?]).
  apply Z.eqb_eq in H. subst. unfold isAscii.
  repeat split; auto; lia.
Qed.

Lemma base64_sextets_char (v : Z) (rest : jsstring) :
  0 <= v < 64 ->
  base64_sextets (base64_char v :: rest) = v :: base64_sextets rest.
Proof.
  intros Hv. destruct (base64_char_facts v Hv) as (H1 & H2 & _).
  simpl. now rewrite H2, H1.
Qed.

Lemma base64_sextets_pad (rest : jsstring) : base64_sextets (61 :: rest) = [].
Proof. reflexivity. Qed.

Ltac sextet_bound := Z.div_mod_to_equations; lia.

(** Buffer.from(_, 'base64') undoes toString('base64'). *)
Lemma Buffer_from_base64_toString (bs : list Z) :
  Forall isOctet bs ->
  Buffer_from_base64 (Buffer_toString_base64 bs) = bs.
Proof.
  unfold Buffer_from_base64, isOctet.
  induction bs as [|b0|b0 b1|b0 b1 b2 bs IH] using list_ind3; intros H.
  - reflexivity.
  - inversion_clear H as [|? ? H0 _].
    simpl Buffer_toString_base64.
    rewrite !base64_sextets_char, base64_sextets_pad by sextet_bound.
    simpl. f_equal. sextet_bound.
  - inversion_clear H as [|? ? H0 H']. inversion_clear H' as [|? ? H1 _].
    simpl Buffer_toString_base64.
    rewrite !base64_sextets_char, base64_sextets_pad by sextet_bound.
    simpl. f_equal; [|f_equal]; sextet_bound.
  - inversion_clear H as [|? ? H0 H']. inversion_clear H' as [|? ? H1 H''].
    inversion_clear H'' as [|? ? H2 Hbs].
    simpl Buffer_toString_base64.
    rewrite !base64_sextets_char by sextet_bound.
    simpl. rewrite (IH Hbs).
    f_equal; [|f_equal; [|f_equal]]; sextet_bound.
Qed.

Lemma Buffer_toString_base64_ascii (bs : list Z) :
  Forall isOctet bs -> Forall isAscii (Buffer_toString_base64 bs).
Proof.
  unfold isOctet.
  induction bs as [|b0|b0 b1|b0 b1 b2 bs IH] using list_ind3; intros H.
  - constructor.
  - inversion_clear H as [|? ? H0 _]. simpl.
    repeat constructor; try (apply base64_char_facts; sextet_bound);
      unfold isAscii; lia.
  - inversion_clear H as [|? ? H0 H']. inversion_clear H' as [|? ? H1 _].
    simpl.
    repeat constructor; try (apply base64_char_facts; sextet_bound);
      unfold isAscii; lia.
  - inversion_clear H as [|? ? H0 H']. inversion_clear H' as [|? ? H1 H''].
    inversion_clear H'' as [|? ? H2 Hbs]. simpl.
    repeat (constructor; [apply base64_char_facts; sextet_bound|]).
    now apply IH.
Qed.

(** ** UTF-8 *)

Lemma utf8_octets_isOctet (cp : Z) :
  isScalar cp -> Forall isOctet (utf8_octets cp).
Proof.
  intros [Hr Hs]. unfold utf8_octets, isOctet.
  destruct (Z.leb_spec cp 127); [|destruct (Z.leb_spec cp 2047);
    [|destruct (Z.leb_spec cp 65535)]];
    repeat constructor; Z.div_mod_to_equations; lia.
Qed.

Section Utf8Steps.
Variables (cp b : Z) (rest : list Z).

Lemma utf8_decode_ascii :
  0 <= b <= 127 ->
  utf8_decode 0 0 128 191 (b :: rest) = b :: utf8_decode 0 0 128 191 rest.
Proof. intros H. cbn [utf8_decode]. cbv zeta. now zbool. Qed.

Lemma utf8_decode_lead2 :
  194 <= b <= 223 ->
  utf8_decode 0 0 128 191 (b :: rest) = utf8_decode (b - 192) 1 128 191 rest.
Proof. intros H. cbn [utf8_decode]. cbv zeta. now zbool. Qed.

Lemma utf8_decode_lead3 :
  224 <= b <= 239 ->
  utf8_decode 0 0 128 191 (b :: rest)
  = utf8_decode (b - 224) 2
      (if b =? 224 then 160 else 128) (if b =? 237 then 159 else 191) rest.
Proof.
  intros H. cbn [utf8_decode]. cbv zeta.
  destruct (Z.leb_spec b 127); [lia|].
  destruct (Z.leb_spec 194 b); [|lia].
  destruct (Z.leb_spec b 223); [lia|].
  destruct (Z.leb_spec 224 b); [|lia].
  destruct (Z.leb_spec b 239); [|lia].
  reflexivity.
Qed.

Lemma utf8_decode_lead4 :
  240 <= b <= 244 ->
  utf8_decode 0 0 128 191 (b :: rest)
  = utf8_decode (b - 240) 3
      (if b =? 240 then 144 else 128) (if b =? 244 then 143 else 191) rest.
Proof.
  intros H. cbn [utf8_decode]. cbv zeta.
  destruct (Z.leb_spec b 127); [lia|].
  destruct (Z.leb_spec 194 b); [|lia].
  destruct (Z.leb_spec b 223); [lia|].
  destruct (Z.leb_spec 224 b); [|lia].
  destruct (Z.leb_spec b 239); [lia|].
  destruct (Z.leb_spec 240 b); [|lia].
  destruct (Z.leb_spec b 244); [|lia].
  reflexivity.
Qed.

Lemma utf8_decode_last (lower upper : Z) :
  lower <= b <= upper ->
  utf8_decode cp 1 lower upper (b :: rest)
  = (cp * 64 + (b - 128)) :: utf8_decode 0 0 128 191 rest.
Proof.
  intros H. cbn [utf8_decode]. cbv zeta.
  destruct (Z.leb_spec lower b); [|lia].
  destruct (Z.leb_spec b upper); [|lia].
  reflexivity.
Qed.

Lemma utf8_decode_more (n : nat) (lower upper : Z) :
  lower <= b <= upper ->
  utf8_decode cp (S (S n)) lower upper (b :: rest)
  = utf8_decode (cp * 64 + (b - 128)) (S n) 128 191 rest.
Proof.
  intros H. cbn [utf8_decode]. cbv zeta.
  destruct (Z.leb_spec lower b); [|lia].
  destruct (Z.leb_spec b upper); [|lia].
  reflexivity.
Qed.

End Utf8Steps.

(** The decoder reads back the octets of a scalar value. *)
Lemma utf8_decode_octets (cp : Z) (rest : list Z) :
  isScalar cp ->
  utf8_decode 0 0 128 191 (utf8_octets cp ++ rest)
  = cp :: utf8_decode 0 0 128 191 rest.
Proof.
  intros [Hr Hs]. unfold utf8_octets.
  destruct (Z.leb_spec cp 127); [|destruct (Z.leb_spec cp 2047);
    [|destruct (Z.leb_spec cp 65535)]]; cbn [app].
  - apply utf8_decode_ascii. lia.
  - rewrite utf8_decode_lead2 by (Z.div_mod_to_equations; lia).
    rewrite utf8_decode_last by (Z.div_mod_to_equations; lia).
    f_equal. Z.div_mod_to_equations; lia.
  - rewrite utf8_decode_lead3 by (Z.div_mod_to_equations; lia).
    rewrite utf8_decode_more
      by (destruct (Z.eqb_spec (224 + cp / 4096) 224);
          destruct (Z.eqb_spec (224 + cp / 4096) 237);
          Z.div_mod_to_equations; lia).
    rewrite utf8_decode_last by (Z.div_mod_to_equations; lia).
    f_equal. Z.div_mod_to_equations; lia.
  - rewrite utf8_decode_lead4 by (Z.div_mod_to_equations; lia).
    rewrite utf8_decode_more
      by (destruct (Z.eqb_spec (240 + cp / 262144) 240);
          destruct (Z.eqb_spec (240 + cp / 262144) 244);
          Z.div_mod_to_equations; lia).
    rewrite utf8_decode_more by (Z.div_mod_to_equations; lia).
    rewrite utf8_decode_last by (Z.div_mod_to_equations; lia).
    f_equal. Z.div_mod_to_equations; lia.
Qed.

Lemma UTF16EncodeCodePoint_bmp (u : Z) :
  u <= 65535 -> UTF16EncodeCodePoint u = [u].
Proof.
  intros H. unfold UTF16EncodeCodePoint.
  now destruct (Z.leb_spec u 65535); [|lia].
Qed.

Lemma UTF16EncodeCodePoint_pair (hi lo : Z) :
  isHighSurrogate hi = true -> isLowSurrogate lo = true ->
  UTF16EncodeCodePoint (65536 + (hi - 55296) * 1024 + (lo - 56320)) = [hi; lo].
Proof.
  unfold isHighSurrogate, isLowSurrogate. intros Hh Hl.
  apply andb_prop in Hh, Hl. destruct Hh as [H1 H2], Hl as [H3 H4].
  apply Z.leb_le in H1, H2, H3, H4.
  unfold UTF16EncodeCodePoint.
  destruct (Z.leb_spec (65536 + (hi - 55296) * 1024 + (lo - 56320)) 65535); [lia|].
  f_equal; [|f_equal]; Z.div_mod_to_equations; lia.
Qed.

Lemma surrogate_pair_scalar (hi lo : Z) :
  isHighSurrogate hi = true -> isLowSurrogate lo = true ->
  isScalar (65536 + (hi - 55296) * 1024 + (lo - 56320)).
Proof.
  unfold isHighSurrogate, isLowSurrogate, isScalar. intros Hh Hl.
  apply andb_prop in Hh, Hl. destruct Hh as [H1 H2], Hl as [H3 H4].
  apply Z.leb_le in H1, H2, H3, H4. lia.
Qed.

Lemma isWellFormed_unit (u : Z) (rest : jsstring) :
  isHighSurrogate u = false -> isWellFormed (u :: rest) = true ->
  isLowSurrogate u = false /\ isScalar u /\ u <= 65535 /\ isWellFormed rest = true.
Proof.
  intros Hh H. cbn [isWellFormed] in H. rewrite Hh in H.
  apply andb_prop in H; destruct H as [H Hrest].
  apply andb_prop in H; destruct H as [H Hmax].
  apply andb_prop in H; destruct H as [H Hmin].
  apply negb_true_iff in H. apply Z.leb_le in Hmin, Hmax.
  unfold isScalar. repeat split; auto; try lia.
  unfold isHighSurrogate, isLowSurrogate in *. intros [? ?].
  destruct (Z.leb_spec 55296 u); [|lia].
  destruct (Z.leb_spec u 56319); [discriminate|].
  destruct (Z.leb_spec 56320 u); [|lia].
  destruct (Z.leb_spec u 57343); [discriminate|lia].
Qed.

Lemma isWellFormed_pair (u : Z) (rest : jsstring) :
  isHighSurrogate u = true -> isWellFormed (u :: rest) = true ->
  exists u2 rest2,
    rest = u2 :: rest2 /\ isLowSurrogate u2 = true
    /\ isWellFormed rest2 = true.
Proof.
  intros Hh H. cbn [isWellFormed] in H. rewrite Hh in H.
  destruct rest as [|u2 rest2]; [discriminate|].
  apply andb_prop in H. destruct H as [Hl Hwf].
  now exists u2, rest2.
Qed.

Lemma Buffer_from_utf8_pair (u u2 : Z) (rest : jsstring) :
  isHighSurrogate u = true -> isLowSurrogate u2 = true ->
  Buffer_from_utf8 (u :: u2 :: rest)
  = utf8_octets (65536 + (u - 55296) * 1024 + (u2 - 56320))
      ++ Buffer_from_utf8 rest.
Proof. intros Hh Hl. cbn [Buffer_from_utf8]. now rewrite Hh, Hl. Qed.

Lemma Buffer_from_utf8_unit (u : Z) (rest : jsstring) :
  isHighSurrogate u = false -> isLowSurrogate u = false ->
  Buffer_from_utf8 (u :: rest) = utf8_octets u ++ Buffer_from_utf8 rest.
Proof. intros Hh Hl. cbn [Buffer_from_utf8]. now rewrite Hh, Hl. Qed.

(** Buffer.from(s).toString() gives back a well-formed string, and the
    buffer holds octets. *)
Lemma Buffer_toString_from_utf8 (s : jsstring) :
  isWellFormed s = true ->
  Buffer_toString (Buffer_from_utf8 s) = s
  /\ Forall isOctet (Buffer_from_utf8 s).
Proof.
  remember (List.length s) as n eqn:Hn.
  revert s Hn. induction n as [n IH] using lt_wf_ind. intros s Hn Hwf.
  destruct s as [|u rest]; [split; [reflexivity|constructor]|].
  unfold Buffer_toString in *.
  destruct (isHighSurrogate u) eqn:Hh.
  - destruct (isWellFormed_pair u rest Hh Hwf) as (u2 & rest2 & -> & Hl & Hwf').
    rewrite Buffer_from_utf8_pair by assumption.
    destruct (IH (List.length rest2)) with (s := rest2) as [IH1 IH2];
      [subst n; cbn [List.length]; lia | reflexivity | assumption |].
    pose proof (surrogate_pair_scalar u u2 Hh Hl) as Hsc.
    split.
    + rewrite utf8_decode_octets by assumption.
      cbn [flat_map]. rewrite UTF16EncodeCodePoint_pair by assumption.
      rewrite IH1. reflexivity.
    + apply Forall_app. split; [now apply utf8_octets_isOctet | assumption].
  - destruct (isWellFormed_unit u rest Hh Hwf) as (Hl & Hsc & Hle & Hwf').
    rewrite Buffer_from_utf8_unit by assumption.
    destruct (IH (List.length rest)) with (s := rest) as [IH1 IH2];
      [subst n; cbn [List.length]; lia | reflexivity | assumption |].
    split.
    + rewrite utf8_decode_octets by assumption.
      cbn [flat_map]. rewrite UTF16EncodeCodePoint_bmp by assumption.
      rewrite IH1. reflexivity.
    + apply Forall_app. split; [now apply utf8_octets_isOctet | assumption].
Qed.

(** C2.  For every well-formed text [s], decoding the token the encoder
    makes of [s] (the percent-encoding of the base64 of [s]) gives [s]
    back: decode is the inverse of the encoder. *)
Theorem decode_encode (s : jsstring) :
  isWellFormed s = true ->
  (token <- encode s ;; decode token) = Return s.
Proof.
  intros Hwf.
  destruct (Buffer_toString_from_utf8 s Hwf) as [Hs Hoct].
  pose proof (Decode_Encode_ascii _ (Buffer_toString_base64_ascii _ Hoct)) as H.
  unfold encode, encodeURIComponent, decode, decodeURIComponent.
  destruct (Encode (Buffer_toString_base64 (Buffer_from_utf8 s))) as [t|e];
    [|discriminate].
  cbn [cbind] in *. rewrite H. cbn [cbind].
  now rewrite Buffer_from_base64_toString, Hs.
Qed.

(** ** Failures of decode *)

Lemma list_length_ind {A : Type} (P : list A -> Prop) :
  (forall l, (forall l', (List.length l' < List.length l)%nat -> P l') -> P l) ->
  forall l, P l.
Proof.
  intros H l. remember (List.length l) as n eqn:Hn. revert l Hn.
  induction n as [n IH] using lt_wf_ind. intros l ->.
  apply H. intros l' Hlt. now apply (IH (List.length l')).
Qed.

Lemma Decode_throws_URIError (s : jsstring) :
  forall pending e, Decode pending s = Throw e -> e = URIError.
Proof.
  induction s as [s IH] using list_length_ind.
  intros pending e H.
  destruct s as [|C rest]; cbn [Decode] in H.
  - destruct pending; congruence.
  - destruct (C =? 37).
    + destruct rest as [|h [|l rest']]; try congruence.
      destruct (ParseHexOctet h l) as [B|]; [|congruence].
      assert (Hlt : (List.length rest' < List.length (C :: h :: l :: rest'))%nat)
        by (cbn [List.length]; lia).
      destruct pending as [[[|j] Octets]|].
      * destruct (utf8CodePoint (Octets ++ [B])); [|congruence].
        destruct (Decode None rest') eqn:E; cbn [cbind] in H; [congruence|].
        inversion H; subst. eapply (IH rest' Hlt); eassumption.
      * eapply (IH rest' Hlt); eassumption.
      * destruct (leadingOnes B) as [|[|[|[|[|n]]]]]; try congruence;
          try (eapply (IH rest' Hlt); eassumption).
        destruct (Decode None rest') eqn:E; cbn [cbind] in H; [congruence|].
        inversion H; subst. eapply (IH rest' Hlt); eassumption.
    + destruct pending; [congruence|].
      destruct (Decode None rest) eqn:E; cbn [cbind] in H; [congruence|].
      inversion H; subst. eapply (IH rest); [cbn [List.length]; lia|eassumption].
Qed.

Lemma Decode_no_percent (s : jsstring) :
  ~ In 37 s -> Decode None s = Return s.
Proof.
  induction s as [|C rest IH]; intros H; [reflexivity|].
  cbn [Decode]. destruct (Z.eqb_spec C 37) as [->|Hne].
  - exfalso. apply H. now left.
  - rewrite IH; [reflexivity|]. intros Hin. apply H. now right.
Qed.

(** C3, as stated, fails: a token that is not base64 decodes to the empty
    string, and a base64 token whose octets are not UTF-8 decodes to
    U+FFFD; neither is rejected. *)
Lemma decode_returns_on_invalid_token :
  (validBase64 (lit "!!!!") = false
   /\ decode (lit "!!!!") = Return [])
  /\ (validBase64 (lit "/w==") = true
      /\ validUtf8 (Buffer_from_base64 (lit "/w==")) = false
      /\ decode (lit "/w==") = Return [65533]).
Proof. repeat split; reflexivity. Qed.

(** C3, amended.  decode fails exactly when decodeURIComponent rejects the
    token, always with a URIError and only on a token that holds a percent
    sign; a token without one decodes to a value whatever it holds:
    characters outside the alphabet are skipped and ill-formed octets give
    U+FFFD. *)
Theorem decode_throws_only_URIError (token : jsstring) :
  (forall e, decode token = Throw e <-> decodeURIComponent token = Throw e)
  /\ (forall e, decode token = Throw e -> e = URIError /\ In 37 token)
  /\ (~ In 37 token ->
      decode token = Return (Buffer_toString (Buffer_from_base64 token))).
Proof.
  assert (Hiff : forall e,
             decode token = Throw e <-> decodeURIComponent token = Throw e).
  { intros e. unfold decode.
    destruct (decodeURIComponent token); cbn [cbind]; split; congruence. }
  split; [exact Hiff|split].
  - intros e H. apply Hiff in H. split.
    + eapply Decode_throws_URIError. exact H.
    + destruct (in_dec Z.eq_dec 37 token) as [Hin|Hnin]; [assumption|].
      unfold decodeURIComponent in H. rewrite Decode_no_percent in H by assumption.
      discriminate.
  - intros H. unfold decode, decodeURIComponent.
    now rewrite Decode_no_percent.
Qed.

(** ** Media-type dispatch and the item shelves *)

Lemma jsstring_eqb_eq (a b : jsstring) : jsstring_eqb a b = true <-> a = b.
Proof.
  unfold jsstring_eqb. destruct (list_eq_dec Z.eq_dec a b); split;
    congruence.
Qed.

Lemma jsstring_eqb_neq (a b : jsstring) : a <> b -> jsstring_eqb a b = false.
Proof.
  intros H. destruct (jsstring_eqb a b) eqn:E; [|reflexivity].
  apply jsstring_eqb_eq in E. contradiction.
Qed.

Section Shelves.
Context {shapes : Shapes} {projector : Projector}.

(** C4.  On a library whose media type is not [book],
    getLibraryItemsInProgress resolves at once to no items and count 0,
    whatever the [ebook] flag: it is the resolved value itself, and running
    it against any storage layer issues no request. *)
Theorem getLibraryItemsInProgress_not_book (library : Library)
  (userId : jsstring) (include : list jsstring) (limit : Z) (ebook : bool) :
  library_mediaType library <> lit "book" ->
  getLibraryItemsInProgress library userId include limit ebook
  = Resolve {| libraryItems := []; count := 0 |}
  /\ forall db : Storage,
      run db (getLibraryItemsInProgress library userId include limit ebook)
      = ([], Return {| libraryItems := []; count := 0 |}).
Proof.
  intros H. unfold getLibraryItemsInProgress.
  rewrite (jsstring_eqb_neq _ _ H). split; [reflexivity|]. intros db.
  reflexivity.
Qed.

(** C5, amended.  getLibraryItemsContinueSeries does not look at the media
    type: on every library it issues the one continue-series request of the
    book strategy for the library's id, with offset 0, and resolves to the
    items of the answer, enriched, with its count; so the result is empty
    when the answer is, and a failed request rejects it. *)
Theorem getLibraryItemsContinueSeries_always_queries (library : Library)
  (userId : jsstring) (include : list jsstring) (limit : Z) (db : Storage) :
  let request :=
    Book_getContinueSeriesLibraryItems (library_id library) userId include
      limit 0 in
  let outcome :=
    run db (getLibraryItemsContinueSeries library userId include limit) in
  fst outcome = [existT _ _ request]
  /\ (forall page,
        db _ request = Return page ->
        snd outcome
        = Return {| libraryItems := map continueSeries_item
                                        (page_libraryItems page);
                    count := page_count page |})
  /\ (forall e, db _ request = Throw e -> snd outcome = Throw e).
Proof.
  cbv zeta. unfold getLibraryItemsContinueSeries. cbn [run].
  destruct (db ItemsPage _) as [page|e]; cbn [fst snd].
  - split; [reflexivity|]. split; [|discriminate].
    intros page' [= <-]. reflexivity.
  - split; [reflexivity|]. split; [discriminate|].
    now intros e' [= <-].
Qed.

Lemma mostRecentlyAdded_item_sizeFallback (li : LibraryItem) :
  sizeFallback li (mostRecentlyAdded_item li).
Proof.
  intros H1 H2. unfold mostRecentlyAdded_item.
  assert (Hm : truthy_number
                 (media_size
                    (media
                       match li_rssFeed li with
                       | Some feed =>
                         set_rssFeed (getOldLibraryItem_toJSONMinified li)
                           (getOldFeed_toJSONMinified feed)
                       | None => getOldLibraryItem_toJSONMinified li
                       end)) = false)
    by (destruct (li_rssFeed li); exact H2).
  rewrite H1, Hm. reflexivity.
Qed.

(** C8, amended.  Only getLibraryItemsMostRecentlyAdded applies the size
    fallback, on book and on other libraries alike: each of its items is
    made of an item of the storage answer and has its stored size when that
    is truthy and the minified media had none.  The items of
    getLibraryItemsInProgress and getLibraryItemsContinueSeries, and the
    books of getSeriesMostRecentlyAdded, keep the media size the projector
    gave them. *)
Theorem sizeFallback_only_mostRecentlyAdded (library : Library)
  (userId : jsstring) (include : list jsstring) (limit : Z) (ebook : bool)
  (db : Storage) :
  (forall shelf,
      snd (run db (getLibraryItemsMostRecentlyAdded library userId include
                     limit)) = Return shelf ->
      exists request page,
        db ItemsPage request = Return page
        /\ libraryItems shelf
           = map mostRecentlyAdded_item (page_libraryItems page)
        /\ Forall (fun li => sizeFallback li (mostRecentlyAdded_item li))
                  (page_libraryItems page))
  /\ (forall shelf,
        snd (run db (getLibraryItemsInProgress library userId include limit
                       ebook)) = Return shelf ->
        libraryItems shelf = []
        \/ exists request page,
            db ItemsPage request = Return page
            /\ libraryItems shelf
               = map inProgress_item (page_libraryItems page))
  /\ (forall shelf,
        snd (run db (getLibraryItemsContinueSeries library userId include
                       limit)) = Return shelf ->
        exists request page,
          db ItemsPage request = Return page
          /\ libraryItems shelf
             = map continueSeries_item (page_libraryItems page))
  /\ (forall li,
        media (inProgress_item li)
        = media (getOldLibraryItem_toJSONMinified li)
        /\ media_size (media (continueSeries_item li))
           = media_size (media (getOldLibraryItem_toJSONMinified li)))
  /\ (forall bs libraryItem,
        media_size (media (oldLibraryItemOf bs libraryItem))
        = media_size
            (media (getOldLibraryItem_toJSONMinified
                      {| li_plain := libraryItem;
                         li_media := BookMedia (book (deleteLibraryItem bs))
                      |}))).
Proof.
  split; [|split; [|split; [|split; [|reflexivity]]]].
  - intros shelf. unfold getLibraryItemsMostRecentlyAdded.
    destruct (jsstring_eqb (library_mediaType library) (lit "book"));
      cbn [run];
      match goal with
      | |- context [db ItemsPage ?q] =>
        destruct (db ItemsPage q) as [page|e] eqn:E; cbn [snd];
          intros [= <-]; exists q, page; cbn [libraryItems];
          repeat split; auto
      end;
      apply Forall_forall; intros li _;
      apply mostRecentlyAdded_item_sizeFallback.
  - intros shelf. unfold getLibraryItemsInProgress.
    destruct (jsstring_eqb (library_mediaType library) (lit "book")).
    + cbn [run].
      match goal with
      | |- context [db ItemsPage ?q] =>
        destruct (db ItemsPage q) as [page|e] eqn:E; cbn [snd];
          intros [= <-]; right; exists q, page; cbn [libraryItems]; auto
      end.
    + cbn [run snd]. intros [= <-]. now left.
  - intros shelf. unfold getLibraryItemsContinueSeries. cbn [run].
    match goal with
    | |- context [db ItemsPage ?q] =>
      destruct (db ItemsPage q) as [page|e] eqn:E; cbn [snd];
        intros [= <-]; exists q, page; cbn [libraryItems]; auto
    end.
  - intros li. unfold inProgress_item, continueSeries_item.
    now destruct (li_rssFeed li), (li_series li).
Qed.

Lemma filterGroupValue_throws (filterBy : option jsstring) (e : JSError) :
  filterGroupValue filterBy = Throw e -> e = URIError.
Proof.
  unfold filterGroupValue.
  destruct (truthy_string filterBy); [|discriminate].
  destruct filterBy as [s|]; [|discriminate].
  destruct (find (fun _group => startsWith s (_group ++ lit ".")) searchGroups)
    as [g|]; [|discriminate].
  unfold decode.
  destruct (decodeURIComponent (replace s (g ++ lit ".") [])) as [t|e']
    eqn:Hd; cbn [cbind]; [discriminate|].
  intros [= <-]. exact (Decode_throws_URIError _ None e' Hd).
Qed.

(** C10, amended.  getFilteredLibraryItems rejects no media type: once
    the filter is computed it is one request, that of the book strategy,
    with [collapseseries], when [mediaType] is ['book'], and otherwise,
    [undefined] and values outside book and podcast included, that of the
    podcast strategy, which has no [collapseseries].  The one rejection at
    this layer comes before the dispatch, for every media type: when the
    filter token is malformed the function rejects with the URIError of
    decode and reaches no strategy. *)
Theorem getFilteredLibraryItems_dispatch (library : Library)
  (userId : jsstring) (options : Options) :
  (forall filterGroup filterValue : option jsstring,
      filterGroupValue (filterBy options) = Return (filterGroup, filterValue) ->
      (mediaType options = Some (lit "book") ->
       getFilteredLibraryItems library userId options
       = Await (Book_getFilteredLibraryItems (library_id library) userId
                  filterGroup filterValue (sortBy options) (sortDesc options)
                  (collapseseries options) (include options) (limit options)
                  (offset options))
               Resolve)
      /\ (mediaType options <> Some (lit "book") ->
          getFilteredLibraryItems library userId options
          = Await (Podcast_getFilteredLibraryItems (library_id library) userId
                     filterGroup filterValue (sortBy options)
                     (sortDesc options) (include options) (limit options)
                     (offset options))
                  Resolve))
  /\ (forall e : JSError,
        filterGroupValue (filterBy options) = Throw e ->
        e = URIError
        /\ getFilteredLibraryItems library userId options = Reject URIError).
Proof.
  split.
  - intros filterGroup filterValue Hf.
    unfold getFilteredLibraryItems. rewrite Hf. split.
    + intros ->. now rewrite (proj2 (jsstring_eqb_eq _ _) eq_refl).
    + intros Hm. destruct (mediaType options) as [m|]; [|reflexivity].
      rewrite jsstring_eqb_neq; [reflexivity|]. congruence.
  - intros e He. pose proof (filterGroupValue_throws _ _ He) as ->.
    split; [reflexivity|].
    unfold getFilteredLibraryItems. now rewrite He.
Qed.

End Shelves.

(** C10, as stated, fails: with a media type that is neither book nor
    podcast and a tag token with a bad escape, the call is not routed to
    the podcast strategy; it rejects with a URIError and issues no
    request. *)
Lemma getFilteredLibraryItems_rejects_before_dispatch :
  mediaType videoBadTokenOptions = Some (lit "video")
  /\ mediaType videoBadTokenOptions <> Some (lit "book")
  /\ getFilteredLibraryItems podcastLibrary (lit "user") videoBadTokenOptions
     = Reject URIError
  /\ run sampleStorage
         (getFilteredLibraryItems podcastLibrary (lit "user")
            videoBadTokenOptions)
     = ([], Throw URIError).
Proof.
  split; [reflexivity|]. split; [discriminate|]. split; reflexivity.
Qed.

(** C5, as stated, fails: on a podcast library the function asks the book
    strategy for its continue-series items, here of a storage layer that
    has none. *)
Lemma getLibraryItemsContinueSeries_podcast_queries :
  library_mediaType podcastLibrary <> lit "book"
  /\ getLibraryItemsContinueSeries podcastLibrary (lit "user") [] 10
     <> Resolve {| libraryItems := []; count := 0 |}
  /\ fst (run emptyStorage
            (getLibraryItemsContinueSeries podcastLibrary (lit "user") [] 10))
     = [existT _ _ (Book_getContinueSeriesLibraryItems (lit "lib_podcasts")
                      (lit "user") [] 10 0)].
Proof.
  split; [discriminate|]. split; [discriminate|reflexivity].
Qed.

(** C8, as stated, fails: the in-progress shelf returns a book of stored
    size 5 whose minified media has no size, and leaves it without one. *)
Lemma getLibraryItemsInProgress_no_sizeFallback :
  exists old,
    snd (run sampleStorage
           (getLibraryItemsInProgress bookLibrary (lit "user") [] 10 false))
    = Return {| libraryItems := [old]; count := 1 |}
    /\ ~ sizeFallback (sampleItem "Dune" (Some 5)) old.
Proof.
  eexists. split; [reflexivity|].
  intros H. specialize (H eq_refl eq_refl). discriminate H.
Qed.

(** C7, at the failing input: two rows whose sequences are both missing
    or empty compare as 1 in both directions, whatever the collator and
    the rest of the rows; the comparator is not consistent there. *)
Theorem sequenceCompare_both_null {shapes : Shapes} {collator : Collator}
  (ca cb : BookSeriesColumns) (ba bb : Book) :
  Forall (fun '(sa, sb) =>
            let a := {| bs_columns := ca; sequence := sa; book := ba |} in
            let b := {| bs_columns := cb; sequence := sb; book := bb |} in
            sequenceCompare a b = 1 /\ sequenceCompare b a = 1)
         [(None, None); (None, Some []); (Some [], None); (Some [], Some [])].
Proof. repeat constructor. Qed.

(** ** Array.prototype.sort *)

Lemma StronglySorted_app_iff {A : Type} (R : A -> A -> Prop) (l1 l2 : list A) :
  StronglySorted R (l1 ++ l2)
  <-> StronglySorted R l1 /\ StronglySorted R l2
      /\ (forall x y, In x l1 -> In y l2 -> R x y).
Proof.
  induction l1 as [|a l1 IH]; cbn [app].
  - split.
    + intros H. repeat split; [constructor|assumption|contradiction].
    + now intros (_ & H & _).
  - split.
    + intros H. apply StronglySorted_inv in H. destruct H as [Hs Hf].
      apply IH in Hs. destruct Hs as (H1 & H2 & H12).
      apply Forall_app in Hf. destruct Hf as [Hf1 Hf2].
      repeat split; [now constructor|assumption|].
      intros x y [<-|Hx] Hy; [|now apply H12].
      rewrite Forall_forall in Hf2. now apply Hf2.
    + intros (H1 & H2 & H12).
      apply StronglySorted_inv in H1. destruct H1 as [Hs Hf].
      constructor.
      * apply IH. repeat split; [assumption|assumption|].
        intros x y Hx Hy. apply H12; [now right|assumption].
      * apply Forall_app. split; [assumption|].
        apply Forall_forall. intros y Hy. apply H12; [now left|assumption].
Qed.

Lemma StronglySorted_rev {A : Type} (R : A -> A -> Prop) (l : list A) :
  StronglySorted (fun x y => R y x) l -> StronglySorted R (rev l).
Proof.
  induction 1 as [|a l Hs IH Hf]; cbn [rev]; [constructor|].
  apply StronglySorted_app_iff. repeat split.
  - assumption.
  - repeat constructor.
  - intros x y Hx [<-|[]]. rewrite Forall_forall in Hf.
    apply Hf. now apply in_rev.
Qed.

Lemma skipn_div2_nil {A : Type} (l : list A) :
  skipn (Nat.div2 (List.length l)) l = [] -> l = [].
Proof.
  intros H. apply (f_equal (@List.length A)) in H.
  rewrite length_skipn in H. cbn [List.length] in H.
  destruct l as [|a l]; [reflexivity|].
  pose proof (Nat.lt_div2 (List.length (a :: l))) as Hlt.
  cbn [List.length] in *. lia.
Qed.

(** A comparator sorts by the order [le] when it is negative only on
    pairs strictly in order, and never on pairs out of order. *)
Section SortCorrect.
Context {A : Type} (comparefn : A -> A -> Z) (le : A -> A -> Prop).
Hypothesis le_total : forall x y, le x y \/ le y x.
Hypothesis le_trans : forall x y z, le x y -> le y z -> le x z.
Hypothesis comparefn_neg : forall x y, comparefn x y < 0 -> ~ le y x.
Hypothesis comparefn_nonneg : forall x y, 0 <= comparefn x y -> le y x.

Lemma comparefn_neg_le (x y : A) : comparefn x y < 0 -> le x y.
Proof.
  intros H. destruct (le_total x y) as [Hle|Hle]; [assumption|].
  now apply comparefn_neg in H.
Qed.

Lemma extendRun_app (d : bool) (l : list A) (previous : A) :
  fst (extendRun comparefn d previous l)
  ++ snd (extendRun comparefn d previous l) = l.
Proof.
  revert previous. induction l as [|x l IH]; intros previous;
    cbn [extendRun]; [reflexivity|].
  destruct (if d then _ else _); [reflexivity|].
  specialize (IH x). destruct (extendRun comparefn d x l) as [run rest].
  cbn [fst snd app] in *. now rewrite IH.
Qed.

Lemma extendRun_ascending (l : list A) (previous : A) :
  Sorted le (previous :: fst (extendRun comparefn false previous l)).
Proof.
  revert previous. induction l as [|x l IH]; intros previous;
    cbn [extendRun]; [repeat constructor|].
  destruct (Z.ltb_spec (comparefn x previous) 0) as [Hlt|Hge];
    [repeat constructor|].
  specialize (IH x). destruct (extendRun comparefn false x l) as [run rest].
  cbn [fst] in *. constructor; [assumption|].
  constructor. now apply comparefn_nonneg.
Qed.

Lemma extendRun_descending (l : list A) (previous : A) :
  Sorted (fun x y => le y x)
         (previous :: fst (extendRun comparefn true previous l)).
Proof.
  revert previous. induction l as [|x l IH]; intros previous;
    cbn [extendRun]; [repeat constructor|].
  destruct (Z.leb_spec 0 (comparefn x previous)) as [Hge|Hlt];
    [repeat constructor|].
  specialize (IH x). destruct (extendRun comparefn true x l) as [run rest].
  cbn [fst] in *. constructor; [assumption|].
  constructor. now apply comparefn_neg_le.
Qed.

Lemma CountAndMakeRun_perm (l : list A) :
  Permutation (fst (CountAndMakeRun comparefn l)
               ++ snd (CountAndMakeRun comparefn l)) l.
Proof.
  destruct l as [|x0 [|x1 l]]; cbn [CountAndMakeRun fst snd];
    [reflexivity|reflexivity|].
  pose proof (extendRun_app (comparefn x1 x0 <? 0) l x1) as Happ.
  destruct (extendRun comparefn (comparefn x1 x0 <? 0) x1 l) as [run rest].
  cbn [fst snd] in *. rewrite <- Happ.
  change (x0 :: x1 :: run ++ rest) with ((x0 :: x1 :: run) ++ rest).
  apply Permutation_app_tail.
  destruct (comparefn x1 x0 <? 0); [|reflexivity].
  symmetry. apply Permutation_rev.
Qed.

Lemma CountAndMakeRun_sorted (l : list A) :
  StronglySorted le (fst (CountAndMakeRun comparefn l)).
Proof.
  assert (Htrans : Relations_1.Transitive le)
    by (intros x y z Hxy Hyz; eapply le_trans; eassumption).
  assert (Htrans' : Relations_1.Transitive (fun x y => le y x))
    by (intros x y z Hxy Hyz; eapply le_trans; eassumption).
  destruct l as [|x0 [|x1 l]]; cbn [CountAndMakeRun fst snd];
    [constructor|repeat constructor|].
  pose proof (extendRun_ascending l x1) as Hasc.
  pose proof (extendRun_descending l x1) as Hdesc.
  destruct (Z.ltb_spec (comparefn x1 x0) 0) as [Hlt|Hge].
  - destruct (extendRun comparefn true x1 l) as [run rest].
    cbn [fst snd] in *.
    apply StronglySorted_rev. apply Sorted_StronglySorted; [assumption|].
    constructor; [assumption|]. constructor. now apply comparefn_neg_le.
  - destruct (extendRun comparefn false x1 l) as [run rest].
    cbn [fst snd] in *.
    apply Sorted_StronglySorted; [assumption|].
    constructor; [assumption|]. constructor. now apply comparefn_nonneg.
Qed.

Lemma insertPivot_perm (fuel : nat) (pivot : A) (l : list A) :
  Permutation (insertPivot comparefn fuel pivot l) (pivot :: l).
Proof.
  revert l. induction fuel as [|fuel IH]; intros l; cbn [insertPivot];
    [reflexivity|].
  destruct (skipn (Nat.div2 (List.length l)) l) as [|m after] eqn:E.
  - apply skipn_div2_nil in E. now subst.
  - pose proof (firstn_skipn (Nat.div2 (List.length l)) l) as Hl.
    rewrite E in Hl.
    apply Permutation_trans
      with (pivot :: firstn (Nat.div2 (List.length l)) l ++ m :: after);
      [|now rewrite Hl].
    destruct (comparefn pivot m <? 0).
    + rewrite IH. reflexivity.
    + rewrite IH. symmetry.
      apply Permutation_trans
        with (firstn (Nat.div2 (List.length l)) l ++ pivot :: m :: after);
        [apply Permutation_middle|].
      apply Permutation_app_head. apply perm_swap.
Qed.

Lemma insertPivot_sorted (fuel : nat) (pivot : A) (l : list A) :
  (List.length l < fuel)%nat ->
  StronglySorted le l ->
  StronglySorted le (insertPivot comparefn fuel pivot l).
Proof.
  revert l. induction fuel as [|fuel IH]; intros l Hfuel Hs; [lia|].
  cbn [insertPivot].
  destruct (skipn (Nat.div2 (List.length l)) l) as [|m after] eqn:E;
    [repeat constructor|].
  pose proof (firstn_skipn (Nat.div2 (List.length l)) l) as Hl.
  rewrite E in Hl.
  assert (Hlen : List.length l
                 = (List.length (firstn (Nat.div2 (List.length l)) l)
                    + S (List.length after))%nat).
  { rewrite <- Hl at 1. now rewrite length_app. }
  rewrite <- Hl in Hs. apply StronglySorted_app_iff in Hs.
  destruct Hs as (Hlo & Hhi & Hcross).
  pose proof (StronglySorted_inv Hhi) as [Hafter Hm].
  rewrite Forall_forall in Hm.
  destruct (Z.ltb_spec (comparefn pivot m) 0) as [Hlt|Hge].
  - apply comparefn_neg_le in Hlt.
    apply StronglySorted_app_iff. repeat split.
    + apply IH; [lia|assumption].
    + assumption.
    + intros x y Hx Hy.
      apply (Permutation_in _ (insertPivot_perm fuel pivot _)) in Hx.
      destruct Hx as [<-|Hx]; [|now apply Hcross].
      destruct Hy as [<-|Hy]; [assumption|].
      eapply le_trans; [exact Hlt|now apply Hm].
  - apply comparefn_nonneg in Hge.
    apply StronglySorted_app_iff. repeat split.
    + assumption.
    + constructor.
      * apply IH; [lia|assumption].
      * apply Forall_forall. intros y Hy.
        apply (Permutation_in _ (insertPivot_perm fuel pivot _)) in Hy.
        destruct Hy as [<-|Hy]; [assumption|now apply Hm].
    + intros x y Hx [<-|Hy]; [apply Hcross; [assumption|now left]|].
      apply (Permutation_in _ (insertPivot_perm fuel pivot _)) in Hy.
      destruct Hy as [<-|Hy]; [|apply Hcross; [assumption|now right]].
      eapply le_trans; [|exact Hge]. apply Hcross; [assumption|now left].
Qed.

Lemma BinaryInsertionSort_perm (rest run : list A) :
  Permutation (BinaryInsertionSort comparefn run rest) (run ++ rest).
Proof.
  unfold BinaryInsertionSort. revert run.
  induction rest as [|pivot rest IH]; intros run; cbn [fold_left].
  - now rewrite app_nil_r.
  - rewrite IH, insertPivot_perm. apply Permutation_middle.
Qed.

Lemma BinaryInsertionSort_sorted (rest run : list A) :
  StronglySorted le run ->
  StronglySorted le (BinaryInsertionSort comparefn run rest).
Proof.
  unfold BinaryInsertionSort. revert run.
  induction rest as [|pivot rest IH]; intros run Hrun; cbn [fold_left];
    [assumption|].
  apply IH. apply insertPivot_sorted; [lia|assumption].
Qed.

(** The sorted array holds the elements of the array, whatever the
    comparator. *)
Lemma sort_perm (l : list A) : Permutation (sort comparefn l) l.
Proof.
  unfold sort. pose proof (CountAndMakeRun_perm l) as Hp.
  destruct (CountAndMakeRun comparefn l) as [run rest]. cbn [fst snd] in *.
  now rewrite BinaryInsertionSort_perm.
Qed.

(** The sorted array is in the order [le]. *)
Lemma sort_sorted (l : list A) : StronglySorted le (sort comparefn l).
Proof.
  unfold sort. pose proof (CountAndMakeRun_sorted l) as Hs.
  destruct (CountAndMakeRun comparefn l) as [run rest]. cbn [fst snd] in *.
  now apply BinaryInsertionSort_sorted.
Qed.

Lemma equivalent_spec (x y : A) :
  equivalent comparefn x y = true <-> le x y /\ le y x.
Proof.
  unfold equivalent. split.
  - intros H. apply andb_prop in H. destruct H as [H1 H2].
    apply negb_true_iff in H1, H2. apply Z.ltb_ge in H1, H2.
    split; now apply comparefn_nonneg.
  - intros [H1 H2]. apply andb_true_intro. split; apply negb_true_iff;
      apply Z.ltb_ge.
    + destruct (Z_lt_ge_dec (comparefn x y) 0) as [Hlt|Hge]; [|lia].
      now apply comparefn_neg in Hlt.
    + destruct (Z_lt_ge_dec (comparefn y x) 0) as [Hlt|Hge]; [|lia].
      now apply comparefn_neg in Hlt.
Qed.

(** No element equivalent to [x] comes strictly before another one. *)
Lemma equivalent_not_before (x a b : A) :
  equivalent comparefn x a = true -> comparefn b a < 0 ->
  equivalent comparefn x b = false.
Proof.
  intros Ha Hlt. destruct (equivalent comparefn x b) eqn:Hb; [|reflexivity].
  apply equivalent_spec in Ha, Hb. destruct Ha as [Hxa Hax], Hb as [Hxb Hbx].
  apply comparefn_neg in Hlt. exfalso. apply Hlt.
  eapply le_trans; eassumption.
Qed.

Lemma equivalent_not_after (x a b : A) :
  equivalent comparefn x a = true -> comparefn a b < 0 ->
  equivalent comparefn x b = false.
Proof.
  intros Ha Hlt. destruct (equivalent comparefn x b) eqn:Hb; [|reflexivity].
  apply equivalent_spec in Ha, Hb. destruct Ha as [Hxa Hax], Hb as [Hxb Hbx].
  apply comparefn_neg in Hlt. exfalso. apply Hlt.
  eapply le_trans; eassumption.
Qed.

Lemma before_trans (a b c : A) :
  comparefn a b < 0 -> comparefn b c < 0 -> comparefn a c < 0.
Proof.
  intros Hab Hbc.
  destruct (Z_lt_ge_dec (comparefn a c) 0) as [Hlt|Hge]; [assumption|].
  exfalso. assert (Hca : le c a) by (apply comparefn_nonneg; lia).
  apply (comparefn_neg _ _ Hbc).
  eapply le_trans; [exact Hca|].
  destruct (le_total a b) as [H|H]; [assumption|].
  now apply comparefn_neg in Hab.
Qed.

Lemma extendRun_strictly_descending (l : list A) (previous : A) :
  Sorted (fun x y => comparefn y x < 0)
         (previous :: fst (extendRun comparefn true previous l)).
Proof.
  revert previous. induction l as [|x l IH]; intros previous;
    cbn [extendRun]; [repeat constructor|].
  destruct (Z.leb_spec 0 (comparefn x previous)) as [Hge|Hlt];
    [repeat constructor|].
  specialize (IH x). destruct (extendRun comparefn true x l) as [run rest].
  cbn [fst] in *. constructor; [assumption|]. now constructor.
Qed.

(** Reversing a strictly descending run moves no element past an
    equivalent one. *)
Lemma filter_equivalent_rev (x : A) (run : list A) :
  StronglySorted (fun a b => comparefn b a < 0) run ->
  filter (equivalent comparefn x) (rev run)
  = filter (equivalent comparefn x) run.
Proof.
  induction 1 as [|a run Hs IH Hf]; [reflexivity|].
  cbn [rev filter]. rewrite filter_app, IH. cbn [filter].
  destruct (equivalent comparefn x a) eqn:Ha; [|apply app_nil_r].
  assert (Hnil : filter (equivalent comparefn x) run = []).
  { clear IH Hs. induction run as [|b run IHrun]; [reflexivity|].
    apply Forall_cons_iff in Hf. destruct Hf as [Hb Hf]. cbn [filter].
    rewrite (equivalent_not_before x a b Ha Hb). now apply IHrun. }
  now rewrite Hnil.
Qed.

Lemma CountAndMakeRun_stable (x : A) (l : list A) :
  filter (equivalent comparefn x)
         (fst (CountAndMakeRun comparefn l) ++ snd (CountAndMakeRun comparefn l))
  = filter (equivalent comparefn x) l.
Proof.
  destruct l as [|x0 [|x1 l]]; cbn [CountAndMakeRun fst snd];
    [reflexivity|reflexivity|].
  pose proof (extendRun_app (comparefn x1 x0 <? 0) l x1) as Happ.
  pose proof (extendRun_strictly_descending l x1) as Hdesc.
  destruct (Z.ltb_spec (comparefn x1 x0) 0) as [Hlt|Hge].
  - destruct (extendRun comparefn true x1 l) as [run rest].
    cbn [fst snd] in *. rewrite <- Happ.
    change (x0 :: x1 :: run ++ rest) with ((x0 :: x1 :: run) ++ rest).
    rewrite !filter_app. f_equal. apply filter_equivalent_rev.
    apply Sorted_StronglySorted.
    + intros a b c Hab Hbc. eapply before_trans; eassumption.
    + constructor; [assumption|]. now constructor.
  - destruct (extendRun comparefn false x1 l) as [run rest].
    cbn [fst snd] in *. now rewrite <- Happ.
Qed.

(** The place of the pivot: after the elements at most equal to it and
    before those it comes strictly before. *)
Lemma insertPivot_split (fuel : nat) (pivot : A) (l : list A) :
  (List.length l < fuel)%nat ->
  StronglySorted le l ->
  exists lo hi,
    l = lo ++ hi
    /\ insertPivot comparefn fuel pivot l = lo ++ pivot :: hi
    /\ Forall (fun e => comparefn pivot e < 0) hi.
Proof.
  revert l. induction fuel as [|fuel IH]; intros l Hfuel Hs; [lia|].
  cbn [insertPivot].
  destruct (skipn (Nat.div2 (List.length l)) l) as [|m after] eqn:E.
  - apply skipn_div2_nil in E. subst l. exists [], []. now repeat split.
  - pose proof (firstn_skipn (Nat.div2 (List.length l)) l) as Hl.
    rewrite E in Hl.
    assert (Hlen : List.length l
                   = (List.length (firstn (Nat.div2 (List.length l)) l)
                      + S (List.length after))%nat).
    { rewrite <- Hl at 1. now rewrite length_app. }
    rewrite <- Hl in Hs. apply StronglySorted_app_iff in Hs.
    destruct Hs as (Hlo & Hhi & Hcross).
    pose proof (StronglySorted_inv Hhi) as [Hafter Hm].
    destruct (Z.ltb_spec (comparefn pivot m) 0) as [Hlt|Hge].
    + destruct (IH (firstn (Nat.div2 (List.length l)) l)) as (lo & hi & H1 & H2 & H3);
        [lia|assumption|].
      exists lo, (hi ++ m :: after). repeat split.
      * rewrite <- Hl at 1. rewrite H1 at 1. now rewrite <- app_assoc.
      * rewrite H2. now rewrite <- app_assoc.
      * apply Forall_app. split; [assumption|].
        constructor; [assumption|].
        apply Forall_forall. intros e He.
        rewrite Forall_forall in Hm. specialize (Hm e He).
        destruct (Z_lt_ge_dec (comparefn pivot e) 0) as [H|H]; [assumption|].
        exfalso. apply (comparefn_neg _ _ Hlt).
        eapply le_trans; [exact Hm|]. apply comparefn_nonneg. lia.
    + destruct (IH after) as (lo & hi & H1 & H2 & H3); [lia|assumption|].
      exists (firstn (Nat.div2 (List.length l)) l ++ m :: lo), hi.
      repeat split.
      * rewrite <- Hl at 1. rewrite H1 at 1. now rewrite <- app_assoc.
      * rewrite H2. now rewrite <- app_assoc.
      * assumption.
Qed.

Lemma insertPivot_stable (x pivot : A) (l : list A) :
  StronglySorted le l ->
  filter (equivalent comparefn x)
         (insertPivot comparefn (S (List.length l)) pivot l)
  = filter (equivalent comparefn x) (l ++ [pivot]).
Proof.
  intros Hs.
  destruct (insertPivot_split (S (List.length l)) pivot l) as (lo & hi & H1 & H2 & H3);
    [lia|assumption|].
  rewrite H2. clear H2. subst l. rewrite <- app_assoc, !filter_app.
  f_equal. cbn [filter].
  destruct (equivalent comparefn x pivot) eqn:Hp; [|now rewrite app_nil_r].
  assert (Hnil : filter (equivalent comparefn x) hi = []).
  { clear Hs. induction hi as [|e hi IHhi]; [reflexivity|].
    apply Forall_cons_iff in H3. destruct H3 as [He H3]. cbn [filter].
    rewrite (equivalent_not_after x pivot e Hp He). now apply IHhi. }
  now rewrite Hnil.
Qed.

Lemma BinaryInsertionSort_stable (x : A) (rest run : list A) :
  StronglySorted le run ->
  filter (equivalent comparefn x) (BinaryInsertionSort comparefn run rest)
  = filter (equivalent comparefn x) (run ++ rest).
Proof.
  unfold BinaryInsertionSort. revert run.
  induction rest as [|pivot rest IH]; intros run Hrun; cbn [fold_left].
  - now rewrite app_nil_r.
  - rewrite IH by (apply insertPivot_sorted; [lia|assumption]).
    rewrite filter_app, insertPivot_stable by assumption.
    now rewrite <- filter_app, <- app_assoc.
Qed.

(** The sort is stable: equivalent elements keep their order. *)
Lemma sort_stable (x : A) (l : list A) :
  filter (equivalent comparefn x) (sort comparefn l)
  = filter (equivalent comparefn x) l.
Proof.
  unfold sort. pose proof (CountAndMakeRun_stable x l) as Hst.
  pose proof (CountAndMakeRun_sorted l) as Hs.
  destruct (CountAndMakeRun comparefn l) as [run rest]. cbn [fst snd] in *.
  now rewrite BinaryInsertionSort_stable.
Qed.

Lemma equivalent_refl (x : A) : equivalent comparefn x x = true.
Proof.
  apply equivalent_spec. destruct (le_total x x); auto.
Qed.

Lemma filter_head_in (x : A) (l l' : list A) :
  filter (equivalent comparefn x) l = x :: l' -> In x l.
Proof.
  intros H. assert (Hin : In x (filter (equivalent comparefn x) l))
    by (rewrite H; now left).
  apply filter_In in Hin. tauto.
Qed.

(** An array in order in which equivalent elements stand as in [l] is
    determined: two stable sorts of [l] give the same array. *)
Lemma stable_sorted_unique (l1 l2 : list A) :
  StronglySorted le l1 -> StronglySorted le l2 ->
  (forall x, filter (equivalent comparefn x) l1
             = filter (equivalent comparefn x) l2) ->
  l1 = l2.
Proof.
  intros H1. revert l2. induction H1 as [|a l1 Hs1 IH Hf1]; intros l2 H2 Hst.
  - destruct l2 as [|b l2]; [reflexivity|].
    specialize (Hst b). cbn [filter] in Hst.
    rewrite equivalent_refl in Hst. discriminate Hst.
  - destruct H2 as [|b l2 Hs2 Hf2].
    + specialize (Hst a). cbn [filter] in Hst.
      rewrite equivalent_refl in Hst. discriminate Hst.
    + assert (Hab : equivalent comparefn a b = true).
      { apply equivalent_spec. split.
        - pose proof (Hst b) as Hb. cbn [filter] in Hb.
          rewrite equivalent_refl in Hb.
          destruct (equivalent comparefn b a) eqn:E.
          + apply equivalent_spec in E; tauto.
          + apply filter_head_in in Hb.
            rewrite Forall_forall in Hf1. now apply Hf1.
        - pose proof (Hst a) as Ha. cbn [filter] in Ha.
          rewrite equivalent_refl in Ha.
          destruct (equivalent comparefn a b) eqn:E.
          + apply equivalent_spec in E; tauto.
          + symmetry in Ha. apply filter_head_in in Ha.
            rewrite Forall_forall in Hf2. now apply Hf2. }
      pose proof (Hst a) as Ha. cbn [filter] in Ha.
      rewrite equivalent_refl, Hab in Ha. injection Ha as <- _.
      f_equal. apply IH; [assumption|].
      intros x. specialize (Hst x). cbn [filter] in Hst.
      destruct (equivalent comparefn x a); [now injection Hst|assumption].
Qed.

End SortCorrect.

(** ** The sequence comparator *)

Section SequenceOrder.
Context {shapes : Shapes} {collator : Collator}
        {laws : ConsistentCollator collator}.

Lemma bySequence_total (x y : BookSeries) : bySequence x y \/ bySequence y x.
Proof.
  unfold bySequence, sequenceOrder.
  destruct (sequence x) as [[|cx sx]|], (sequence y) as [[|cy sy]|];
    cbv beta iota; auto.
  destruct (Z_le_gt_dec (localeCompare (cx :: sx) (cy :: sy) None
             {| numeric := true; sensitivity := lit "base" |}) 0) as [H|H];
    [now left|right].
  assert (localeCompare (cy :: sy) (cx :: sx) None
             {| numeric := true; sensitivity := lit "base" |} < 0); [|lia].
  apply localeCompare_opposite. lia.
Qed.

Lemma bySequence_trans (x y z : BookSeries) :
  bySequence x y -> bySequence y z -> bySequence x z.
Proof.
  unfold bySequence, sequenceOrder.
  destruct (sequence x) as [[|cx sx]|], (sequence y) as [[|cy sy]|],
           (sequence z) as [[|cz sz]|]; cbv beta iota; auto;
    try contradiction.
  apply localeCompare_transitive.
Qed.

Lemma sequenceCompare_neg (x y : BookSeries) :
  sequenceCompare x y < 0 -> ~ bySequence y x.
Proof.
  unfold sequenceCompare, bySequence, sequenceOrder.
  destruct (sequence x) as [[|cx sx]|], (sequence y) as [[|cy sy]|];
    cbn [truthy_string negb]; cbv beta iota; try lia; auto.
  intros H Hle. apply localeCompare_opposite in H. lia.
Qed.

Lemma sequenceCompare_nonneg (x y : BookSeries) :
  0 <= sequenceCompare x y -> bySequence y x.
Proof.
  unfold sequenceCompare, bySequence, sequenceOrder.
  destruct (sequence x) as [[|cx sx]|], (sequence y) as [[|cy sy]|];
    cbn [truthy_string negb]; cbv beta iota; try lia; auto.
  intros H.
  destruct (Z_le_gt_dec (localeCompare (cy :: sy) (cx :: sx) None
             {| numeric := true; sensitivity := lit "base" |}) 0) as [Hle|Hgt];
    [assumption|].
  assert (localeCompare (cx :: sx) (cy :: sy) None
             {| numeric := true; sensitivity := lit "base" |} < 0); [|lia].
  apply localeCompare_opposite. lia.
Qed.

(** [s.bookSeries.sort(...)] puts the rows in the order of sequences. *)
Lemma sort_bySequence (l : list BookSeries) :
  StronglySorted bySequence (sort sequenceCompare l).
Proof.
  apply sort_sorted.
  - apply bySequence_total.
  - apply bySequence_trans.
  - apply sequenceCompare_neg.
  - apply sequenceCompare_nonneg.
Qed.

(** Rows with equivalent sequences, among them all the rows without one,
    stay in the order of the query. *)
Lemma sort_bySequence_stable (x : BookSeries) (l : list BookSeries) :
  filter (equivalent sequenceCompare x) (sort sequenceCompare l)
  = filter (equivalent sequenceCompare x) l.
Proof.
  apply (sort_stable sequenceCompare bySequence).
  - apply bySequence_total.
  - apply bySequence_trans.
  - apply sequenceCompare_neg.
  - apply sequenceCompare_nonneg.
Qed.

(** The comparator is consistent on every pair but that of two rows
    without a sequence. *)
Lemma sequenceCompare_opposite (x y : BookSeries) :
  truthy_string (sequence x) = true \/ truthy_string (sequence y) = true ->
  (sequenceCompare x y < 0 <-> 0 < sequenceCompare y x).
Proof.
  unfold sequenceCompare.
  destruct (sequence x) as [[|cx sx]|], (sequence y) as [[|cy sy]|];
    cbn [truthy_string negb]; intros [H|H]; try discriminate H; try lia.
  - apply localeCompare_opposite.
  - apply localeCompare_opposite.
Qed.

End SequenceOrder.

(** ** The sample collator is consistent *)

Ltac ltb_cases :=
  repeat match goal with
         | H : context [?a <? ?b] |- _ =>
           destruct (Z.ltb_spec a b); try lia
         | |- context [?a <? ?b] =>
           destruct (Z.ltb_spec a b); try lia
         end.

Lemma compareKeys_opposite (k1 k2 : list (Z * Z)) :
  compareKeys k1 k2 < 0 <-> 0 < compareKeys k2 k1.
Proof.
  revert k2. induction k1 as [|[c1 v1] k1 IH]; intros [|[c2 v2] k2];
    cbn [compareKeys]; try lia.
  ltb_cases. apply IH.
Qed.

Lemma compareKeys_transitive (k1 k2 k3 : list (Z * Z)) :
  compareKeys k1 k2 <= 0 -> compareKeys k2 k3 <= 0 -> compareKeys k1 k3 <= 0.
Proof.
  revert k2 k3.
  induction k1 as [|[c1 v1] k1 IH]; intros [|[c2 v2] k2] [|[c3 v3] k3];
    cbn [compareKeys]; try lia.
  intros H12 H23. ltb_cases. eapply IH; eassumption.
Qed.

#[export] Instance referenceCollator_consistent :
  ConsistentCollator referenceCollator.
Proof.
  split; cbn [localeCompare referenceCollator]; intros.
  - apply compareKeys_opposite.
  - eapply compareKeys_transitive; eassumption.
Qed.

#[export] Instance referenceCollator_numericBase :
  NumericBaseCollator referenceCollator.
Proof.
  split; [exact referenceCollator_consistent|].
  intros a b _ _. reflexivity.
Qed.

(** ** The order of a collator with [numeric: true] and
    [sensitivity: 'base'] *)


Section NumericOrder.
Context {shapes : Shapes} {collator : Collator}
        {laws : NumericBaseCollator collator}.







End NumericOrder.

(** ** The recent series shelf *)

Section RecentSeries.
Context {shapes : Shapes} {projector : Projector} {collator : Collator}.

Lemma mapBookSeries_loaded (l : list BookSeries) :
  libraryItemsLoaded l ->
  exists olds,
    mapBookSeries l = (Return olds, map deleteLibraryItem l)
    /\ oldItemsOf l olds.
Proof.
  unfold libraryItemsLoaded, oldItemsOf.
  induction 1 as [|bs l Hbs Hl IH]; cbn [mapBookSeries map].
  - exists []. split; [reflexivity|constructor].
  - destruct IH as (olds & Hmap & Holds).
    destruct (book_libraryItem (book bs)) as [libraryItem|] eqn:E;
      [|contradiction].
    rewrite Hmap. cbn [cbind].
    exists (oldLibraryItemOf bs libraryItem :: olds).
    split; [reflexivity|]. constructor; [|assumption].
    now exists libraryItem.
Qed.





End RecentSeries.


Example sort_sequences :
  map sequence (sort sequenceCompare (bookSeries sampleSeries))
  = [Some (lit "1"); Some (lit "3"); Some (lit "10"); None].
Proof. reflexivity. Qed.

(** ** Concrete runs *)

(** The three cases of the filter on an empty string, on a tag token and
    on a bare field name. *)
Lemma filterGroupValue_spec_witness :
  (truthy_string (Some []) = false
   /\ filterGroupValue (Some []) = Return (None, None))
  /\ (In (lit "tags") searchGroups
      /\ filterGroupValue (Some (lit "tags" ++ lit "." ++ lit "Zm9v"))
         = (value <- decode (lit "Zm9v") ;;
            Return (Some (lit "tags"), Some value)))
  /\ (lit "added" <> []
      /\ filterGroupValue (Some (lit "added")) = Return (Some (lit "added"), None)).
Proof.
  assert (Hin : In (lit "tags") searchGroups) by (right; left; reflexivity).
  assert (Hnone : forall g, In g searchGroups ->
                            startsWith (lit "added") (g ++ lit ".") = false).
  { intros g Hg. cbn [searchGroups map In] in Hg.
    repeat (destruct Hg as [<-|Hg]; [reflexivity|]). contradiction. }
  assert (Hne : lit "added" <> []) by discriminate.
  split; [|split].
  - split; [reflexivity|].
    exact (proj1 (filterGroupValue_spec (Some [])) eq_refl).
  - split; [exact Hin|].
    exact (proj1 (proj2 (filterGroupValue_spec _)) _ (lit "Zm9v") Hin eq_refl).
  - split; [exact Hne|].
    exact (proj1 (proj2 (proj2 (filterGroupValue_spec _)))
                 (lit "added") eq_refl Hne Hnone).
Defined.

(** The round trip of a text with two-, three- and four-octet characters. *)
Lemma decode_encode_witness :
  isWellFormed [104; 233; 8364; 55357; 56832] = true
  /\ (token <- encode [104; 233; 8364; 55357; 56832] ;; decode token)
     = Return [104; 233; 8364; 55357; 56832].
Proof.
  split; [reflexivity|].
  exact (decode_encode [104; 233; 8364; 55357; 56832] eq_refl).
Defined.

(** A token outside base64 without a percent sign decodes; a bad escape
    is a URIError. *)
Lemma decode_throws_only_URIError_witness :
  (~ In 37 (lit "a b!")
   /\ decode (lit "a b!")
      = Return (Buffer_toString (Buffer_from_base64 (lit "a b!"))))
  /\ (decode (lit "%zz") = Throw URIError
      /\ In 37 (lit "%zz")).
Proof.
  assert (Hnin : ~ In 37 (lit "a b!")).
  { cbn [lit map list_ascii_of_string In].
    intros [H|[H|[H|[H|[]]]]]; discriminate H. }
  split.
  - split; [exact Hnin|].
    exact (proj2 (proj2 (decode_throws_only_URIError (lit "a b!"))) Hnin).
  - split; [reflexivity|].
    exact (proj2 (proj1 (proj2 (decode_throws_only_URIError (lit "%zz")))
                        URIError eq_refl)).
Defined.

(** The continue-reading shelf of a podcast library. *)
Lemma getLibraryItemsInProgress_not_book_witness :
  library_mediaType podcastLibrary <> lit "book"
  /\ run sampleStorage
         (getLibraryItemsInProgress podcastLibrary (lit "user") [] 10 true)
     = ([], Return {| libraryItems := []; count := 0 |}).
Proof.
  assert (H : library_mediaType podcastLibrary <> lit "book") by discriminate.
  split; [exact H|].
  exact (proj2 (getLibraryItemsInProgress_not_book podcastLibrary (lit "user")
                  [] 10 true H) sampleStorage).
Defined.

(** The continue-series shelf asked for a podcast library. *)
Lemma getLibraryItemsContinueSeries_always_queries_witness :
  sampleStorage ItemsPage
    (Book_getContinueSeriesLibraryItems (lit "lib_podcasts") (lit "user") []
       10 0)
  = Return {| page_libraryItems := [sampleItem "Dune" (Some 5)];
              page_count := 1 |}
  /\ snd (run sampleStorage
            (getLibraryItemsContinueSeries podcastLibrary (lit "user") [] 10))
     = Return {| libraryItems :=
                   map continueSeries_item [sampleItem "Dune" (Some 5)];
                 count := 1 |}.
Proof.
  split; [reflexivity|].
  exact (proj1 (proj2 (getLibraryItemsContinueSeries_always_queries
                         podcastLibrary (lit "user") [] 10 sampleStorage))
               _ eq_refl).
Defined.

(** The recently added shelf of a book library whose one book has stored
    size 5. *)
Lemma sizeFallback_only_mostRecentlyAdded_witness :
  snd (run sampleStorage
         (getLibraryItemsMostRecentlyAdded bookLibrary (lit "user") [] 10))
  = Return {| libraryItems :=
                map mostRecentlyAdded_item [sampleItem "Dune" (Some 5)];
              count := 1 |}
  /\ exists request page,
      sampleStorage ItemsPage request = Return page
      /\ map mostRecentlyAdded_item [sampleItem "Dune" (Some 5)]
         = map mostRecentlyAdded_item (page_libraryItems page)
      /\ Forall (fun li => sizeFallback li (mostRecentlyAdded_item li))
                (page_libraryItems page).
Proof.
  split; [reflexivity|].
  exact (proj1 (sizeFallback_only_mostRecentlyAdded bookLibrary (lit "user")
                  [] 10 false sampleStorage)
               _ eq_refl).
Defined.

(** A tag filter without a media type goes to the podcast strategy, and
    a tag token with a bad escape is a URIError. *)
Lemma getFilteredLibraryItems_dispatch_witness :
  (filterGroupValue (filterBy sampleOptions)
   = Return (Some (lit "tags"), Some (lit "foo"))
   /\ mediaType sampleOptions <> Some (lit "book")
   /\ getFilteredLibraryItems podcastLibrary (lit "user") sampleOptions
      = Await (Podcast_getFilteredLibraryItems (lit "lib_podcasts")
                 (lit "user") (Some (lit "tags")) (Some (lit "foo"))
                 (Some (lit "addedAt")) true [] 10 0)
              Resolve)
  /\ (filterGroupValue (filterBy videoBadTokenOptions) = Throw URIError
      /\ getFilteredLibraryItems podcastLibrary (lit "user")
           videoBadTokenOptions
         = Reject URIError).
Proof.
  assert (H : mediaType sampleOptions <> Some (lit "book")) by discriminate.
  split.
  - split; [reflexivity|]. split; [exact H|].
    exact (proj2 (proj1 (getFilteredLibraryItems_dispatch podcastLibrary
                           (lit "user") sampleOptions)
                        (Some (lit "tags")) (Some (lit "foo")) eq_refl)
                 H).
  - split; [reflexivity|].
    exact (proj2 (proj2 (getFilteredLibraryItems_dispatch podcastLibrary
                           (lit "user") videoBadTokenOptions)
                        URIError eq_refl)).
Defined.

(** The books of [sampleRows] come with their libraryItem. *)
Lemma sampleRows_loaded :
  Forall (fun s => libraryItemsLoaded (bookSeries s)) sampleRows.
Proof. repeat constructor; discriminate. Defined.



(** * Further properties *)

(** ** The filter *)

Lemma filterGroupValue_known (g token : jsstring) :
  In g searchGroups ->
  filterGroupValue (Some (g ++ lit "." ++ token))
  = (value <- decode token ;; Return (Some g, Some value)).
Proof.
  intros Hg.
  assert (Hne : truthy_string (Some (g ++ lit "." ++ token)) = true
                /\ truthy_string (Some g) = true).
  { cbn [searchGroups map In] in Hg.
    repeat (destruct Hg as [<-|Hg]; [split; reflexivity|]). contradiction. }
  destruct Hne as [Hne Hg'].
  unfold filterGroupValue. rewrite Hne, (find_searchGroup g token Hg).
  rewrite (app_assoc g (lit ".") token), replace_prefix, Hg'. reflexivity.
Qed.

(** X1.  Whatever the filter of getFilteredLibraryItems returns falls in
    one of three cases: no filter at all, a known group with the decoded
    value of its token, or the whole [filterBy] as group without a value.
    So a value is present only with a known group. *)
Theorem filterGroupValue_inversion (filterBy group value : option jsstring) :
  filterGroupValue filterBy = Return (group, value) ->
  (truthy_string filterBy = false /\ group = None /\ value = None)
  \/ (exists g token v,
        In g searchGroups
        /\ filterBy = Some (g ++ lit "." ++ token)
        /\ decode token = Return v
        /\ group = Some g /\ value = Some v)
  \/ (exists s,
        filterBy = Some s /\ s <> []
        /\ (forall g, In g searchGroups ->
                      startsWith s (g ++ lit ".") = false)
        /\ group = Some s /\ value = None).
Proof.
  intros H.
  destruct (truthy_string filterBy) eqn:Ht.
  - destruct filterBy as [s|]; [|discriminate Ht].
    destruct (find (fun _group => startsWith s (_group ++ lit ".")) searchGroups)
      as [g|] eqn:Hfind.
    + apply find_some in Hfind. destruct Hfind as [Hg Hs].
      apply startsWith_inv in Hs.
      remember (skipn (List.length (g ++ lit ".")) s) as token eqn:Htoken.
      clear Htoken. rewrite <- app_assoc in Hs. subst s.
      pose proof (eq_trans (eq_sym (filterGroupValue_known g token Hg)) H)
        as H'.
      destruct (decode token) as [v|e] eqn:Hd; [|discriminate H'].
      cbn [cbind] in H'. injection H' as <- <-.
      right. left. exists g, token, v. auto.
    + right. right. exists s.
      assert (Hnone : forall g, In g searchGroups ->
                                startsWith s (g ++ lit ".") = false).
      { intros g Hg.
        exact (find_none _ _ Hfind g Hg). }
      unfold filterGroupValue in H. rewrite Ht in H.
      rewrite (find_all_false (A := list Z)
                 (fun _group => startsWith s (_group ++ lit "."))
                 searchGroups Hnone) in H.
      cbn [truthy_string] in H. injection H as <- <-.
      repeat split; auto. intros ->. discriminate Ht.
  - left. unfold filterGroupValue in H. rewrite Ht in H.
    injection H as <- <-. auto.
Qed.

(** X2.  At the edges of the token grammar: the bare name of a known
    group, without the dot, is a raw field name without a value, and the
    name with the dot and nothing after it is that group with the empty
    string as value. *)
Theorem filterGroupValue_bare_group (g : jsstring) :
  In g searchGroups ->
  filterGroupValue (Some g) = Return (Some g, None)
  /\ filterGroupValue (Some (g ++ lit ".")) = Return (Some g, Some []).
Proof.
  intros Hg. cbn [searchGroups map In] in Hg.
  repeat (destruct Hg as [<-|Hg]; [split; reflexivity|]). contradiction.
Qed.

Section FilteredItems.
Context {shapes : Shapes}.

(** X3.  A known group followed by a token that decodeURIComponent
    rejects makes getFilteredLibraryItems reject with a URIError before
    any storage request, whatever the media type. *)
Theorem getFilteredLibraryItems_bad_token (library : Library)
  (userId : jsstring) (options : Options) (g token : jsstring) (e : JSError)
  (db : Storage) :
  In g searchGroups ->
  filterBy options = Some (g ++ lit "." ++ token) ->
  decodeURIComponent token = Throw e ->
  run db (getFilteredLibraryItems library userId options)
  = ([], Throw URIError).
Proof.
  intros Hg Hf Hd.
  pose proof (Decode_throws_URIError token None e Hd) as ->.
  unfold getFilteredLibraryItems.
  rewrite Hf, (filterGroupValue_known g token Hg).
  unfold decode. rewrite Hd. reflexivity.
Qed.

(** X4.  When the filter is computed, getFilteredLibraryItems issues one
    storage request and its outcome is the answer to that request as it
    is: the page is not enriched and a failure is not caught. *)
Theorem getFilteredLibraryItems_passes_answer (library : Library)
  (userId : jsstring) (options : Options)
  (group value : option jsstring) (db : Storage) :
  filterGroupValue (filterBy options) = Return (group, value) ->
  exists request : Request ItemsPage,
    run db (getFilteredLibraryItems library userId options)
    = ([existT _ _ request], db ItemsPage request)
    /\ request_libraryId (existT _ _ request) = library_id library
    /\ request_limit (existT _ _ request) = limit options
    /\ request_offset (existT _ _ request) = offset options.
Proof.
  intros Hf. unfold getFilteredLibraryItems. rewrite Hf.
  destruct (match mediaType options with
            | Some m => jsstring_eqb m (lit "book")
            | None => false
            end);
    [exists (Book_getFilteredLibraryItems (library_id library) userId
               group value (sortBy options) (sortDesc options)
               (collapseseries options) (include options) (limit options)
               (offset options))
    |exists (Podcast_getFilteredLibraryItems (library_id library) userId
               group value (sortBy options) (sortDesc options)
               (include options) (limit options) (offset options))];
    (split; [cbn [run]; destruct (db ItemsPage _); reflexivity
            |repeat split]).
Qed.

End FilteredItems.

(** ** The item shelves *)

Section ItemShelves.
Context {shapes : Shapes} {projector : Projector}.

(** X5.  A call of an item shelf issues at most one storage request, and
    that request is for the library's id, with the caller's limit and
    offset 0. *)
Theorem item_shelves_one_request (library : Library) (userId : jsstring)
  (include : list jsstring) (limit : Z) (ebook : bool) (db : Storage) :
  Forall (fun shelf : Async ItemsShelf =>
            (List.length (fst (run db shelf)) <= 1)%nat
            /\ Forall (fun r => request_libraryId r = library_id library
                                /\ request_limit r = limit
                                /\ request_offset r = 0)
                      (fst (run db shelf)))
         [getLibraryItemsInProgress library userId include limit ebook;
          getLibraryItemsMostRecentlyAdded library userId include limit;
          getLibraryItemsContinueSeries library userId include limit].
Proof.
  unfold getLibraryItemsInProgress, getLibraryItemsMostRecentlyAdded,
    getLibraryItemsContinueSeries.
  constructor; [|constructor; [|constructor; [|constructor]]];
    destruct (jsstring_eqb (library_mediaType library) (lit "book"));
    cbn [run];
    repeat match goal with
           | |- context [db ItemsPage ?q] => destruct (db ItemsPage q)
           end;
    cbn [fst List.length]; (split; [lia|repeat constructor]).
Qed.

Lemma inProgress_item_enriched (li : LibraryItem) :
  enriched li (inProgress_item li).
Proof.
  unfold enriched, inProgress_item. now destruct (li_rssFeed li).
Qed.

Lemma mostRecentlyAdded_item_enriched (li : LibraryItem) :
  enriched li (mostRecentlyAdded_item li).
Proof.
  unfold enriched, mostRecentlyAdded_item.
  destruct (li_rssFeed li);
    match goal with
    | |- context [if ?c then _ else _] => destruct c
    end; repeat split.
Qed.

Lemma continueSeries_item_enriched (li : LibraryItem) :
  enriched li (continueSeries_item li).
Proof.
  unfold enriched, continueSeries_item.
  now destruct (li_rssFeed li), (li_series li).
Qed.

Lemma Forall2_map_r {A B : Type} (R : A -> B -> Prop) (f : A -> B)
  (l : list A) :
  (forall a, R a (f a)) -> Forall2 R l (map f l).
Proof. intros H. induction l; constructor; auto. Qed.

(** X6.  When an item shelf resolves, its count is the count of the
    storage answer, whatever the number of items, and its items are the
    items of the answer one for one and in order: each is the projector's
    old item with the feed of [li.rssFeed] attached when there is one, the
    rest of the item, of its media and of its metadata being kept.  (The
    in-progress shelf of a library that is not a book library has no items
    and count 0.) *)
Theorem item_shelves_enrich_in_order (library : Library) (userId : jsstring)
  (include : list jsstring) (limit : Z) (ebook : bool) (db : Storage) :
  Forall (fun shelf : Async ItemsShelf =>
            forall resolved,
              snd (run db shelf) = Return resolved ->
              (fst (run db shelf) = []
               /\ libraryItems resolved = [] /\ count resolved = 0)
              \/ exists request page,
                  fst (run db shelf) = [existT _ _ request]
                  /\ db ItemsPage request = Return page
                  /\ count resolved = page_count page
                  /\ Forall2 enriched (page_libraryItems page)
                             (libraryItems resolved))
         [getLibraryItemsInProgress library userId include limit ebook;
          getLibraryItemsMostRecentlyAdded library userId include limit;
          getLibraryItemsContinueSeries library userId include limit].
Proof.
  unfold getLibraryItemsInProgress, getLibraryItemsMostRecentlyAdded,
    getLibraryItemsContinueSeries.
  constructor; [|constructor; [|constructor; [|constructor]]];
    intros resolved;
    destruct (jsstring_eqb (library_mediaType library) (lit "book"));
    cbn [run];
    try match goal with
        | |- context [db ItemsPage ?q] =>
          destruct (db ItemsPage q) as [page|e] eqn:E; cbn [fst snd];
            intros [= <-]; right; exists q, page; cbn [libraryItems count];
            repeat split; auto; apply Forall2_map_r
        end;
    try apply inProgress_item_enriched;
    try apply mostRecentlyAdded_item_enriched;
    try apply continueSeries_item_enriched.
  cbn [fst snd]. intros [= <-]. left. auto.
Qed.

(** X7.  The size fallback of getLibraryItemsMostRecentlyAdded never
    replaces a size the minified media has, and never copies a stored size
    that is missing or 0: in both cases the media is the projector's. *)
Theorem mostRecentlyAdded_item_keeps_media (li : LibraryItem) :
  truthy_number (media_size (media (getOldLibraryItem_toJSONMinified li)))
  = true
  \/ truthy_number (li_size li) = false ->
  media (mostRecentlyAdded_item li)
  = media (getOldLibraryItem_toJSONMinified li).
Proof.
  intros H. unfold mostRecentlyAdded_item.
  assert (Hm : media match li_rssFeed li with
                     | Some feed =>
                       set_rssFeed (getOldLibraryItem_toJSONMinified li)
                         (getOldFeed_toJSONMinified feed)
                     | None => getOldLibraryItem_toJSONMinified li
                     end
               = media (getOldLibraryItem_toJSONMinified li))
    by now destruct (li_rssFeed li).
  destruct H as [H|H].
  - rewrite Hm, H, andb_false_r. exact Hm.
  - rewrite H. exact Hm.
Qed.

(** X8.  getLibraryItemsContinueSeries annotates an item with
    [li.series] exactly when the item has one, in place of the series the
    minified metadata had; without one the metadata is the projector's.
    The size of the media is never touched. *)
Theorem continueSeries_item_series (li : LibraryItem) :
  metadata_series (media_metadata (media (continueSeries_item li)))
  = match li_series li with
    | Some series => Some series
    | None =>
      metadata_series
        (media_metadata (media (getOldLibraryItem_toJSONMinified li)))
    end
  /\ (li_series li = None ->
      media (continueSeries_item li)
      = media (getOldLibraryItem_toJSONMinified li))
  /\ media_size (media (continueSeries_item li))
     = media_size (media (getOldLibraryItem_toJSONMinified li)).
Proof.
  unfold continueSeries_item.
  destruct (li_rssFeed li), (li_series li); repeat split; discriminate.
Qed.

End ItemShelves.

(** ** The recent series shelf, further *)

Section RecentSeriesFurther.
Context {shapes : Shapes} {projector : Projector} {collator : Collator}.

Lemma oldSeriesOf_loaded_for (s : Series) :
  libraryItemsLoaded (bookSeries s) ->
  exists oldSeries,
    oldSeriesOf s = (Return oldSeries, seriesAsLeft s)
    /\ oldSeriesFor s oldSeries.
Proof.
  intros H. unfold oldSeriesOf.
  destruct (mapBookSeries_loaded (sort sequenceCompare (bookSeries s)))
    as (olds & Hmap & Holds).
  { unfold libraryItemsLoaded in *.
    eapply Permutation_Forall; [|exact H].
    symmetry. apply sort_perm. }
  rewrite Hmap. cbn [cbind]. eexists. split; [reflexivity|].
  unfold oldSeriesFor. cbn [series_rest series_rssFeed books].
  split; [|split].
  - now destruct (feeds s) as [[|feed fs]|].
  - now destruct (feeds s) as [[|feed fs]|].
  - unfold oldItemsOf in Holds. rewrite <- (Forall2_length Holds).
    apply Permutation_length. apply sort_perm.
Qed.

Lemma allOldSeriesOf_loaded_for (series : list Series) :
  Forall (fun s => libraryItemsLoaded (bookSeries s)) series ->
  exists allOldSeries,
    allOldSeriesOf series = (Return allOldSeries, map seriesAsLeft series)
    /\ Forall2 oldSeriesFor series allOldSeries.
Proof.
  induction 1 as [|s series Hs Hseries IH]; cbn [allOldSeriesOf map].
  - exists []. split; [reflexivity|constructor].
  - destruct IH as (olds & Hall & Holds).
    destruct (oldSeriesOf_loaded_for s Hs) as (old & Hold & Hfor).
    rewrite Hold, Hall. cbn [cbind].
    exists (old :: olds). split; [reflexivity|]. now constructor.
Qed.

Lemma existsb_jsstring_eqb (x : jsstring) (l : list jsstring) :
  existsb (jsstring_eqb x) l = true <-> In x l.
Proof.
  rewrite existsb_exists. split.
  - intros (y & Hy & Heq). apply jsstring_eqb_eq in Heq. now subst.
  - intros H. exists x. split; [assumption|]. now apply jsstring_eqb_eq.
Qed.

(** X9.  getSeriesMostRecentlyAdded issues one request, for the library's
    id, with the caller's limit and offset 0, which includes the feeds
    exactly when ['rssfeed'] is among [include]; when it is answered and
    the books come with their libraryItem, the series of the result are
    the rows of the answer one for one and in order, each with the
    minified first feed of the row when it has feeds and with as many
    books as the row has bookSeries, and the count is that of the
    answer. *)
Theorem getSeriesMostRecentlyAdded_series_in_order
  (library : Library) (include : list jsstring) (limit : Z)
  (includeFeed : bool) (db : Storage) :
  (includeFeed = true <-> In (lit "rssfeed") include) ->
  fst (run db (getSeriesMostRecentlyAdded library include limit))
  = [existT _ _ (Series_findAndCountAll (library_id library) limit 0
                   includeFeed)]
  /\ forall page,
      db SeriesPage
         (Series_findAndCountAll (library_id library) limit 0 includeFeed)
      = Return page ->
      Forall (fun s => libraryItemsLoaded (bookSeries s)) (rows page) ->
      exists shelf left,
        snd (run db (getSeriesMostRecentlyAdded library include limit))
        = Return (shelf, left)
        /\ series_count shelf = rows_count page
        /\ Forall2 oldSeriesFor (rows page) (series shelf).
Proof.
  intros Hinclude.
  assert (HincludeFeed :
            existsb (jsstring_eqb (lit "rssfeed")) include = includeFeed).
  { pose proof (existsb_jsstring_eqb (lit "rssfeed") include) as H.
    destruct (existsb (jsstring_eqb (lit "rssfeed")) include), includeFeed;
      try reflexivity.
    - symmetry. apply Hinclude. now apply H.
    - apply H. now apply Hinclude. }
  unfold getSeriesMostRecentlyAdded. rewrite HincludeFeed.
  cbn [run]. split.
  - destruct (db SeriesPage _) as [page|e]; [|reflexivity].
    destruct (allOldSeriesOf (rows page)) as [[olds|e] left]; reflexivity.
  - intros page Hdb Hloaded. rewrite Hdb.
    destruct (allOldSeriesOf_loaded_for (rows page) Hloaded)
      as (olds & Hall & Holds).
    rewrite Hall. cbn [run snd]. do 2 eexists. split; [reflexivity|].
    cbn [series series_count]. now split.
Qed.

Lemma mapBookSeries_throws (l : list BookSeries) (e : JSError) :
  fst (mapBookSeries l) = Throw e -> e = TypeError.
Proof.
  induction l as [|bs l IH]; cbn [mapBookSeries]; [discriminate|].
  destruct (book_libraryItem (book bs)); [|now intros [= <-]].
  destruct (mapBookSeries l) as [[olds|e'] l'']; cbn [fst cbind] in *;
    [discriminate|].
  intros [= <-]. now apply IH.
Qed.

Lemma mapBookSeries_missing (l : list BookSeries) :
  Exists libraryItemMissing l -> fst (mapBookSeries l) = Throw TypeError.
Proof.
  unfold libraryItemMissing.
  induction l as [|bs l IH]; intros H; [inversion H|].
  cbn [mapBookSeries].
  destruct (book_libraryItem (book bs)) eqn:E; [|reflexivity].
  apply Exists_cons in H. destruct H as [H|H]; [congruence|].
  specialize (IH H).
  destruct (mapBookSeries l) as [outcome l'']. cbn [fst] in *.
  now rewrite IH.
Qed.

Lemma oldSeriesOf_throws (s : Series) (e : JSError) :
  fst (oldSeriesOf s) = Throw e -> e = TypeError.
Proof.
  unfold oldSeriesOf.
  pose proof (mapBookSeries_throws (sort sequenceCompare (bookSeries s))) as H.
  destruct (mapBookSeries (sort sequenceCompare (bookSeries s)))
    as [[olds|e'] l'']; cbn [fst cbind] in *; [discriminate|].
  intros [= <-]. now apply H.
Qed.

Lemma oldSeriesOf_missing (s : Series) :
  Exists libraryItemMissing (bookSeries s) ->
  fst (oldSeriesOf s) = Throw TypeError.
Proof.
  intros H. unfold oldSeriesOf.
  assert (H' : Exists libraryItemMissing (sort sequenceCompare (bookSeries s))).
  { apply Exists_exists in H. destruct H as (bs & Hin & Hbs).
    apply Exists_exists. exists bs. split; [|assumption].
    eapply Permutation_in; [|exact Hin]. symmetry. apply sort_perm. }
  apply mapBookSeries_missing in H'.
  destruct (mapBookSeries (sort sequenceCompare (bookSeries s)))
    as [outcome l'']. cbn [fst] in *. now rewrite H'.
Qed.

Lemma allOldSeriesOf_missing (series : list Series) :
  Exists (fun s => Exists libraryItemMissing (bookSeries s)) series ->
  fst (allOldSeriesOf series) = Throw TypeError.
Proof.
  induction series as [|s series IH]; intros H; [inversion H|].
  cbn [allOldSeriesOf].
  pose proof (oldSeriesOf_throws s) as Hthrows.
  pose proof (oldSeriesOf_missing s) as Hmissing.
  destruct (oldSeriesOf s) as [[old|e] s']; cbn [fst] in *.
  - apply Exists_cons in H. destruct H as [H|H];
      [specialize (Hmissing H); discriminate|].
    specialize (IH H).
    destruct (allOldSeriesOf series) as [outcome series'']. cbn [fst] in *.
    now rewrite IH.
  - now rewrite (Hthrows e eq_refl).
Qed.

(** X10.  When the storage layer hands out a series in which a book
    comes without its libraryItem, getSeriesMostRecentlyAdded rejects with
    a TypeError, wherever the row stands. *)
Theorem getSeriesMostRecentlyAdded_missing_libraryItem
  (library : Library) (include : list jsstring) (limit : Z) (db : Storage)
  (page : SeriesPage) :
  db SeriesPage
     (Series_findAndCountAll (library_id library) limit 0
        (existsb (jsstring_eqb (lit "rssfeed")) include)) = Return page ->
  Exists (fun s => Exists libraryItemMissing (bookSeries s)) (rows page) ->
  snd (run db (getSeriesMostRecentlyAdded library include limit))
  = Throw TypeError.
Proof.
  intros Hdb H. apply allOldSeriesOf_missing in H.
  unfold getSeriesMostRecentlyAdded. cbn [run]. rewrite Hdb.
  destruct (allOldSeriesOf (rows page)) as [outcome left]. cbn [fst] in H.
  now rewrite H.
Qed.

(** X11.  The rows a call leaves behind cannot be given to the function
    again: when a call has resolved on rows with at least one book, a
    call that is handed the same rows, as the first left them, rejects
    with a TypeError. *)
Theorem getSeriesMostRecentlyAdded_twice
  (library : Library) (include : list jsstring) (limit : Z) (db : Storage)
  (page : SeriesPage) :
  db SeriesPage
     (Series_findAndCountAll (library_id library) limit 0
        (existsb (jsstring_eqb (lit "rssfeed")) include)) = Return page ->
  Forall (fun s => libraryItemsLoaded (bookSeries s)) (rows page) ->
  Exists (fun s => bookSeries s <> []) (rows page) ->
  exists shelf left,
    snd (run db (getSeriesMostRecentlyAdded library include limit))
    = Return (shelf, left)
    /\ forall (db' : Storage) (page' : SeriesPage),
        db' SeriesPage
            (Series_findAndCountAll (library_id library) limit 0
               (existsb (jsstring_eqb (lit "rssfeed")) include))
        = Return page' ->
        rows page' = left ->
        snd (run db' (getSeriesMostRecentlyAdded library include limit))
        = Throw TypeError.
Proof.
  intros Hdb Hloaded Hbook.
  destruct (allOldSeriesOf_loaded_for (rows page) Hloaded)
    as (olds & Hall & _).
  exists {| series := olds; series_count := rows_count page |},
         (map seriesAsLeft (rows page)).
  split.
  - unfold getSeriesMostRecentlyAdded. cbn [run]. now rewrite Hdb, Hall.
  - intros db' page' Hdb' Hrows.
    assert (H : Exists (fun s => Exists libraryItemMissing (bookSeries s))
                       (rows page')).
    { rewrite Hrows. apply Exists_exists in Hbook.
      destruct Hbook as (s & Hin & Hs). apply Exists_exists.
      exists (seriesAsLeft s). split; [now apply in_map|].
      cbn [seriesAsLeft bookSeries].
      destruct (sort sequenceCompare (bookSeries s)) as [|bs sorted] eqn:E.
      - exfalso. apply Hs. apply Permutation_nil.
        rewrite <- E. apply sort_perm.
      - cbn [map]. now left. }
    apply allOldSeriesOf_missing in H.
    unfold getSeriesMostRecentlyAdded. cbn [run]. rewrite Hdb'.
    destruct (allOldSeriesOf (rows page')) as [outcome left].
    cbn [fst] in H. now rewrite H.
Qed.

End RecentSeriesFurther.

(** ** The sort and the rows that go last

    Some elements go last for a comparator: it is never negative with one
    of them on the left, and negative with one of them on the right and
    another element on the left.  The sort puts them last and keeps their
    order, whatever the comparator does with the other elements. *)
Section LastRows.
Context {A : Type} (comparefn : A -> A -> Z) (last : A -> bool).
Hypothesis last_nonneg : forall x y, last x = true -> 0 <= comparefn x y.
Hypothesis last_after :
  forall x y, last x = false -> last y = true -> comparefn x y < 0.

Lemma lastLe_trans (x y z : A) : lastLe last x y -> lastLe last y z -> lastLe last x z.
Proof. unfold lastLe. auto. Qed.

Lemma comparefn_neg_lastLe (x y : A) : comparefn x y < 0 -> lastLe last x y.
Proof.
  intros H Hx. pose proof (last_nonneg x y Hx). lia.
Qed.

Lemma comparefn_nonneg_lastLe (x y : A) :
  0 <= comparefn x y -> lastLe last y x.
Proof.
  intros H Hy. destruct (last x) eqn:Hx; [reflexivity|].
  pose proof (last_after x y Hx Hy). lia.
Qed.

Lemma extendRun_fst_snd (d : bool) (l : list A) (previous : A) :
  fst (extendRun comparefn d previous l)
  ++ snd (extendRun comparefn d previous l) = l.
Proof.
  revert previous. induction l as [|x l IH]; intros previous;
    cbn [extendRun]; [reflexivity|].
  destruct (if d then _ else _); [reflexivity|].
  specialize (IH x). destruct (extendRun comparefn d x l) as [run rest].
  cbn [fst snd app] in *. now rewrite IH.
Qed.

Lemma extendRun_ascending_lastLe (l : list A) (previous : A) :
  Sorted (lastLe last) (previous :: fst (extendRun comparefn false previous l)).
Proof.
  revert previous. induction l as [|x l IH]; intros previous;
    cbn [extendRun]; [repeat constructor|].
  destruct (Z.ltb_spec (comparefn x previous) 0) as [Hlt|Hge];
    [repeat constructor|].
  specialize (IH x). destruct (extendRun comparefn false x l) as [run rest].
  cbn [fst] in *. constructor; [assumption|].
  constructor. now apply comparefn_nonneg_lastLe.
Qed.

(** Only the first element of a strictly descending run can go last. *)
Lemma extendRun_descending_last (l : list A) (previous : A) :
  Forall (fun x => last x = false) (fst (extendRun comparefn true previous l)).
Proof.
  revert previous. induction l as [|x l IH]; intros previous;
    cbn [extendRun]; [constructor|].
  destruct (Z.leb_spec 0 (comparefn x previous)) as [Hge|Hlt];
    [constructor|].
  specialize (IH x). destruct (extendRun comparefn true x l) as [run rest].
  cbn [fst] in *. constructor; [|assumption].
  destruct (last x) eqn:Hx; [|reflexivity].
  pose proof (last_nonneg x previous Hx). lia.
Qed.

Lemma filter_none (f : A -> bool) (l : list A) :
  Forall (fun x => f x = false) l -> filter f l = [].
Proof.
  induction 1 as [|x l Hx Hl IH]; [reflexivity|].
  cbn [filter]. now rewrite Hx.
Qed.

Lemma filter_all (f : A -> bool) (l : list A) :
  Forall (fun x => f x = true) l -> filter f l = l.
Proof.
  induction 1 as [|x l Hx Hl IH]; [reflexivity|].
  cbn [filter]. now rewrite Hx, IH.
Qed.

Lemma StronglySorted_lastLe_split (l : list A) :
  StronglySorted (lastLe last) l ->
  l = filter (fun x => negb (last x)) l ++ filter last l.
Proof.
  induction 1 as [|a l Hs IH Hf]; [reflexivity|].
  cbn [filter]. destruct (last a) eqn:Ha; cbn [negb].
  - assert (Hall : Forall (fun x => last x = true) l).
    { eapply Forall_impl; [|exact Hf]. intros x Hx. now apply Hx. }
    rewrite (filter_all last l Hall).
    rewrite filter_none; [reflexivity|].
    eapply Forall_impl; [|exact Hall]. intros x Hx. cbv beta.
    now rewrite Hx.
  - cbn [app]. now rewrite <- IH.
Qed.

Lemma CountAndMakeRun_lastLe (l : list A) :
  StronglySorted (lastLe last) (fst (CountAndMakeRun comparefn l)).
Proof.
  destruct l as [|x0 [|x1 l]]; cbn [CountAndMakeRun fst snd];
    [constructor|repeat constructor|].
  pose proof (extendRun_ascending_lastLe l x1) as Hasc.
  pose proof (extendRun_descending_last l x1) as Hdesc.
  destruct (Z.ltb_spec (comparefn x1 x0) 0) as [Hlt|Hge].
  - destruct (extendRun comparefn true x1 l) as [run rest].
    cbn [fst snd] in *.
    assert (Hx1 : last x1 = false).
    { destruct (last x1) eqn:Hx1; [|reflexivity].
      pose proof (last_nonneg x1 x0 Hx1). lia. }
    change (rev (x0 :: x1 :: run)) with (rev (x1 :: run) ++ [x0]).
    apply StronglySorted_app_iff. repeat split.
    + assert (H : Forall (fun x => last x = false) (rev (x1 :: run))).
      { apply Forall_rev. now constructor. }
      induction H as [|y ys Hy Hys IH]; constructor; [assumption|].
      apply Forall_forall. intros z _ Hlast. congruence.
    + repeat constructor.
    + intros x y Hx _ Hlast. apply in_rev in Hx.
      assert (H : Forall (fun x => last x = false) (x1 :: run))
        by now constructor.
      rewrite Forall_forall in H. specialize (H x Hx). congruence.
  - destruct (extendRun comparefn false x1 l) as [run rest].
    cbn [fst snd] in *.
    apply Sorted_StronglySorted;
      [intros x y z; apply lastLe_trans|].
    constructor; [assumption|]. constructor.
    now apply comparefn_nonneg_lastLe.
Qed.

Lemma CountAndMakeRun_last (l : list A) :
  filter last (fst (CountAndMakeRun comparefn l)
               ++ snd (CountAndMakeRun comparefn l))
  = filter last l.
Proof.
  destruct l as [|x0 [|x1 l]]; cbn [CountAndMakeRun fst snd];
    [reflexivity|reflexivity|].
  pose proof (extendRun_fst_snd (comparefn x1 x0 <? 0) l x1) as Happ.
  pose proof (extendRun_descending_last l x1) as Hdesc.
  destruct (Z.ltb_spec (comparefn x1 x0) 0) as [Hlt|Hge].
  - destruct (extendRun comparefn true x1 l) as [run rest].
    cbn [fst snd] in *. rewrite <- Happ.
    change (x0 :: x1 :: run ++ rest) with ((x0 :: x1 :: run) ++ rest).
    rewrite !filter_app. f_equal.
    assert (Hx1 : last x1 = false).
    { destruct (last x1) eqn:Hx1; [|reflexivity].
      pose proof (last_nonneg x1 x0 Hx1). lia. }
    assert (H : Forall (fun x => last x = false) (x1 :: run))
      by now constructor.
    change (rev (x0 :: x1 :: run)) with (rev (x1 :: run) ++ [x0]).
    rewrite filter_app.
    rewrite (filter_none last (rev (x1 :: run))) by now apply Forall_rev.
    change (x0 :: x1 :: run) with ([x0] ++ x1 :: run).
    rewrite filter_app, (filter_none last (x1 :: run) H).
    now rewrite app_nil_r.
  - destruct (extendRun comparefn false x1 l) as [run rest].
    cbn [fst snd] in *. now rewrite <- Happ.
Qed.

Lemma insertPivot_lastLe (fuel : nat) (pivot : A) (l : list A) :
  (List.length l < fuel)%nat ->
  StronglySorted (lastLe last) l ->
  StronglySorted (lastLe last) (insertPivot comparefn fuel pivot l).
Proof.
  revert l. induction fuel as [|fuel IH]; intros l Hfuel Hs; [lia|].
  cbn [insertPivot].
  destruct (skipn (Nat.div2 (List.length l)) l) as [|m after] eqn:E;
    [repeat constructor|].
  pose proof (firstn_skipn (Nat.div2 (List.length l)) l) as Hl.
  rewrite E in Hl.
  assert (Hlen : List.length l
                 = (List.length (firstn (Nat.div2 (List.length l)) l)
                    + S (List.length after))%nat).
  { rewrite <- Hl at 1. now rewrite length_app. }
  assert (Hperm : forall l', Permutation (insertPivot comparefn fuel pivot l')
                                         (pivot :: l')).
  { clear. induction fuel as [|fuel IHf]; intros l'; cbn [insertPivot];
      [reflexivity|].
    destruct (skipn (Nat.div2 (List.length l')) l') as [|m after] eqn:E.
    - apply skipn_div2_nil in E. now subst.
    - pose proof (firstn_skipn (Nat.div2 (List.length l')) l') as Hl.
      rewrite E in Hl.
      apply Permutation_trans
        with (pivot :: firstn (Nat.div2 (List.length l')) l' ++ m :: after);
        [|now rewrite Hl].
      destruct (comparefn pivot m <? 0).
      + rewrite IHf. reflexivity.
      + rewrite IHf. symmetry.
        apply Permutation_trans
          with (firstn (Nat.div2 (List.length l')) l' ++ pivot :: m :: after);
          [apply Permutation_middle|].
        apply Permutation_app_head. apply perm_swap. }
  rewrite <- Hl in Hs. apply StronglySorted_app_iff in Hs.
  destruct Hs as (Hlo & Hhi & Hcross).
  pose proof (StronglySorted_inv Hhi) as [Hafter Hm].
  rewrite Forall_forall in Hm.
  destruct (Z.ltb_spec (comparefn pivot m) 0) as [Hlt|Hge].
  - apply comparefn_neg_lastLe in Hlt.
    apply StronglySorted_app_iff. repeat split.
    + apply IH; [lia|assumption].
    + assumption.
    + intros x y Hx Hy.
      apply (Permutation_in _ (Hperm _)) in Hx.
      destruct Hx as [<-|Hx]; [|now apply Hcross].
      destruct Hy as [<-|Hy]; [assumption|].
      eapply lastLe_trans; [exact Hlt|now apply Hm].
  - apply comparefn_nonneg_lastLe in Hge.
    apply StronglySorted_app_iff. repeat split.
    + assumption.
    + constructor.
      * apply IH; [lia|assumption].
      * apply Forall_forall. intros y Hy.
        apply (Permutation_in _ (Hperm _)) in Hy.
        destruct Hy as [<-|Hy]; [assumption|now apply Hm].
    + intros x y Hx [<-|Hy]; [apply Hcross; [assumption|now left]|].
      apply (Permutation_in _ (Hperm _)) in Hy.
      destruct Hy as [<-|Hy]; [|apply Hcross; [assumption|now right]].
      eapply lastLe_trans; [|exact Hge]. apply Hcross; [assumption|now left].
Qed.

Lemma insertPivot_last (fuel : nat) (pivot : A) (l : list A) :
  (List.length l < fuel)%nat ->
  filter last (insertPivot comparefn fuel pivot l)
  = filter last (l ++ [pivot]).
Proof.
  revert l. induction fuel as [|fuel IH]; intros l Hfuel; [lia|].
  cbn [insertPivot].
  destruct (skipn (Nat.div2 (List.length l)) l) as [|m after] eqn:E.
  - apply skipn_div2_nil in E. now subst l.
  - pose proof (firstn_skipn (Nat.div2 (List.length l)) l) as Hl.
    rewrite E in Hl.
    assert (Hlen : List.length l
                   = (List.length (firstn (Nat.div2 (List.length l)) l)
                      + S (List.length after))%nat).
    { rewrite <- Hl at 1. now rewrite length_app. }
    replace (l ++ [pivot])
      with ((firstn (Nat.div2 (List.length l)) l ++ m :: after) ++ [pivot])
      by now rewrite Hl.
    destruct (Z.ltb_spec (comparefn pivot m) 0) as [Hlt|Hge].
    + rewrite filter_app, IH by lia.
      assert (Hp : last pivot = false).
      { destruct (last pivot) eqn:Hp; [|reflexivity].
        pose proof (last_nonneg pivot m Hp). lia. }
      rewrite !filter_app. cbn [filter]. rewrite Hp.
      now rewrite !app_nil_r.
    + rewrite <- app_assoc. rewrite !filter_app. f_equal.
      cbn [app filter]. rewrite IH by lia. rewrite filter_app.
      now destruct (last m).
Qed.

Lemma BinaryInsertionSort_lastLe (rest run : list A) :
  StronglySorted (lastLe last) run ->
  StronglySorted (lastLe last) (BinaryInsertionSort comparefn run rest).
Proof.
  unfold BinaryInsertionSort. revert run.
  induction rest as [|pivot rest IH]; intros run Hrun; cbn [fold_left];
    [assumption|].
  apply IH. apply insertPivot_lastLe; [lia|assumption].
Qed.

Lemma BinaryInsertionSort_last (rest run : list A) :
  filter last (BinaryInsertionSort comparefn run rest)
  = filter last (run ++ rest).
Proof.
  unfold BinaryInsertionSort. revert run.
  induction rest as [|pivot rest IH]; intros run; cbn [fold_left].
  - now rewrite app_nil_r.
  - rewrite IH. rewrite filter_app, insertPivot_last by lia.
    now rewrite <- filter_app, <- app_assoc.
Qed.

(** The elements that go last are at the end of the sorted array, in the
    order they had. *)
Lemma sort_last (l : list A) :
  sort comparefn l
  = filter (fun x => negb (last x)) (sort comparefn l) ++ filter last l.
Proof.
  assert (Hsorted : StronglySorted (lastLe last) (sort comparefn l)).
  { unfold sort. pose proof (CountAndMakeRun_lastLe l) as Hs.
    destruct (CountAndMakeRun comparefn l) as [run rest]. cbn [fst] in Hs.
    now apply BinaryInsertionSort_lastLe. }
  assert (Hlast : filter last (sort comparefn l) = filter last l).
  { unfold sort. pose proof (CountAndMakeRun_last l) as Hs.
    destruct (CountAndMakeRun comparefn l) as [run rest].
    cbn [fst snd] in Hs. now rewrite BinaryInsertionSort_last. }
  rewrite <- Hlast. now apply StronglySorted_lastLe_split.
Qed.

End LastRows.

Lemma Permutation_filter {A : Type} (f : A -> bool) (l1 l2 : list A) :
  Permutation l1 l2 -> Permutation (filter f l1) (filter f l2).
Proof.
  induction 1 as [|x l1 l2 H IH|x y l|l1 l2 l3 H1 IH1 H2 IH2]; cbn [filter].
  - constructor.
  - destruct (f x); [now constructor|assumption].
  - destruct (f x), (f y); try reflexivity. apply perm_swap.
  - eapply Permutation_trans; eassumption.
Qed.

Section SequenceFurther.
Context {shapes : Shapes} {collator : Collator}.

(** X12.  Whatever the collator answers, [s.bookSeries.sort(...)] leaves
    the rows without a sequence at the end, in the order the storage layer
    gave them, after all the rows that have one. *)
Theorem sort_missingSequence_last (l : list BookSeries) :
  exists sequenced,
    sort sequenceCompare l = sequenced ++ filter missingSequence l
    /\ Forall (fun bs => hasSequence bs = true) sequenced
    /\ Permutation sequenced (filter hasSequence l).
Proof.
  exists (filter hasSequence (sort sequenceCompare l)).
  split; [|split].
  - replace (filter hasSequence (sort sequenceCompare l))
      with (filter (fun bs => negb (missingSequence bs))
                   (sort sequenceCompare l)).
    2:{ apply filter_ext. intros bs. unfold missingSequence, hasSequence.
        apply negb_involutive. }
    apply (sort_last sequenceCompare missingSequence).
    + intros x y H. unfold sequenceCompare, missingSequence in *.
      rewrite H. lia.
    + intros x y Hx Hy. unfold sequenceCompare, missingSequence in *.
      rewrite Hx, Hy. lia.
  - apply Forall_forall. intros bs H. now apply filter_In in H.
  - apply Permutation_filter.
    apply (sort_perm sequenceCompare).
Qed.

End SequenceFurther.

Section SequenceOrderFurther.
Context {shapes : Shapes} {collator : Collator}
        {consistent : ConsistentCollator collator}.

(** X13.  With a consistent collator, rows that the storage layer gives
    in the order of their sequences are left as they are by
    [s.bookSeries.sort(...)]. *)
Theorem sort_sequenceCompare_sorted (l : list BookSeries) :
  StronglySorted bySequence l -> sort sequenceCompare l = l.
Proof.
  intros Hs.
  apply (stable_sorted_unique sequenceCompare bySequence).
  - apply bySequence_total.
  - apply sequenceCompare_neg.
  - apply sequenceCompare_nonneg.
  - apply sort_bySequence.
  - assumption.
  - intros x. apply sort_bySequence_stable.
Qed.

(** X14.  With a consistent collator, "comes before" of the comparator is
    transitive on all rows, with or without a sequence, and a row never
    comes before itself. *)
Theorem sequenceCompare_before_transitive (a b c : BookSeries) :
  (sequenceCompare a b < 0 -> sequenceCompare b c < 0 ->
   sequenceCompare a c < 0)
  /\ ~ sequenceCompare a a < 0.
Proof.
  split.
  - apply (before_trans sequenceCompare bySequence).
    + apply bySequence_total.
    + apply bySequence_trans.
    + apply sequenceCompare_neg.
    + apply sequenceCompare_nonneg.
  - intros H. apply (sequenceCompare_neg _ _ H).
    destruct (bySequence_total a a); assumption.
Qed.

End SequenceOrderFurther.

(** ** What decode returns *)

Lemma unbase64_bound (c v : Z) : unbase64 c = Some v -> 0 <= v < 64.
Proof.
  unfold unbase64.
  destruct (Z.leb_spec 65 c), (Z.leb_spec c 90); cbn [andb];
    try (intros [= <-]; lia);
  destruct (Z.leb_spec 97 c), (Z.leb_spec c 122); cbn [andb];
    try (intros [= <-]; lia);
  destruct (Z.leb_spec 48 c), (Z.leb_spec c 57); cbn [andb];
    try (intros [= <-]; lia);
  destruct ((c =? 43) || (c =? 45)); try (intros [= <-]; lia);
  destruct ((c =? 47) || (c =? 95)); try (intros [= <-]; lia);
  discriminate.
Qed.

Lemma base64_sextets_bound (s : jsstring) :
  Forall (fun v => 0 <= v < 64) (base64_sextets s).
Proof.
  induction s as [|u rest IH]; cbn [base64_sextets]; [constructor|].
  destruct (unbase64 (u mod 256)) as [v|] eqn:E.
  - constructor; [now apply (unbase64_bound (u mod 256))|assumption].
  - destruct (u mod 256 =? 61); [constructor|assumption].
Qed.

Lemma base64_octets_isOctet (l : list Z) :
  Forall (fun v => 0 <= v < 64) l -> Forall isOctet (base64_octets l).
Proof.
  unfold isOctet.
  induction l as [l IH] using list_length_ind. intros H.
  destruct l as [|s0 [|s1 [|s2 [|s3 rest]]]]; cbn [base64_octets];
    repeat match goal with
           | H : Forall _ (_ :: _) |- _ =>
             let H0 := fresh "Hs" in
             apply Forall_cons_iff in H; destruct H as [H0 H]
           end;
    repeat (constructor; [Z.div_mod_to_equations; lia|]);
    try constructor.
  apply IH; [cbn [List.length]; lia|assumption].
Qed.

Lemma Buffer_from_base64_isOctet (s : jsstring) :
  Forall isOctet (Buffer_from_base64 s).
Proof.
  apply base64_octets_isOctet. apply base64_sextets_bound.
Qed.

Lemma isScalar_replacement : isScalar 65533.
Proof. unfold isScalar. lia. Qed.

(** The decoder gives Unicode scalar values only. *)
Lemma utf8_decode_isScalar (bs : list Z) :
  Forall isOctet bs ->
  forall cp needed lower upper,
    utf8Pending cp needed lower upper ->
    Forall isScalar (utf8_decode cp needed lower upper bs).
Proof.
  induction 1 as [|b rest Hb Hrest IH]; intros cp needed lower upper Hp.
  - cbn [utf8_decode]. destruct needed; [constructor|].
    constructor; [apply isScalar_replacement|constructor].
  - cbn [utf8_decode].
    assert (Hzero : Forall isScalar (utf8_decode 0 0 128 191 rest))
      by now apply IH.
    match goal with
    | |- Forall _ (match needed with O => ?s | S _ => _ end) =>
      set (start := s)
    end.
    assert (Hstart : Forall isScalar start).
    { subst start. unfold isOctet in Hb.
      zbool; cbn [andb];
        first [ apply IH; cbn [utf8Pending]; lia
              | constructor;
                [first [apply isScalar_replacement | unfold isScalar; lia]
                |assumption] ]. }
    destruct needed as [|[|[|[|n]]]]; cbn [utf8Pending] in Hp;
      [assumption| | | |contradiction].
    + destruct (Z.leb_spec lower b), (Z.leb_spec b upper); cbn [andb];
        try (constructor; [apply isScalar_replacement|assumption]).
      constructor; [unfold isScalar; lia|assumption].
    + destruct (Z.leb_spec lower b), (Z.leb_spec b upper); cbn [andb];
        try (constructor; [apply isScalar_replacement|assumption]).
      apply IH. cbn [utf8Pending]. lia.
    + destruct (Z.leb_spec lower b), (Z.leb_spec b upper); cbn [andb];
        try (constructor; [apply isScalar_replacement|assumption]).
      apply IH. cbn [utf8Pending]. lia.
Qed.

Lemma isWellFormed_UTF16EncodeCodePoint (cp : Z) (rest : jsstring) :
  isScalar cp -> isWellFormed rest = true ->
  isWellFormed (UTF16EncodeCodePoint cp ++ rest) = true.
Proof.
  unfold isScalar, UTF16EncodeCodePoint. intros [Hr Hs] Hrest.
  destruct (Z.leb_spec cp 65535); cbn [app isWellFormed].
  - unfold isHighSurrogate, isLowSurrogate.
    destruct (Z.leb_spec 55296 cp), (Z.leb_spec cp 56319); cbn [andb];
      try lia;
      destruct (Z.leb_spec 56320 cp), (Z.leb_spec cp 57343); cbn [andb negb];
      try lia;
      destruct (Z.leb_spec 0 cp), (Z.leb_spec cp 65535); cbn [andb];
      try lia; assumption.
  - assert (Hhi : isHighSurrogate ((cp - 65536) / 1024 + 55296) = true).
    { unfold isHighSurrogate. apply andb_true_intro.
      split; apply Z.leb_le; Z.div_mod_to_equations; lia. }
    assert (Hlo : isLowSurrogate ((cp - 65536) mod 1024 + 56320) = true).
    { unfold isLowSurrogate. apply andb_true_intro.
      split; apply Z.leb_le; Z.div_mod_to_equations; lia. }
    now rewrite Hhi, Hlo.
Qed.

Lemma Buffer_toString_isWellFormed (bs : list Z) :
  Forall isOctet bs -> isWellFormed (Buffer_toString bs) = true.
Proof.
  intros H. unfold Buffer_toString.
  pose proof (utf8_decode_isScalar bs H 0 0%nat 128 191 I) as Hs.
  induction Hs as [|cp cps Hcp Hcps IH]; [reflexivity|].
  cbn [flat_map]. now apply isWellFormed_UTF16EncodeCodePoint.
Qed.

(** X15.  Whatever the token, the value decode returns is a well-formed
    string: it holds no lone surrogate, octets that are no UTF-8 having
    become U+FFFD. *)
Theorem decode_isWellFormed (text value : jsstring) :
  decode text = Return value -> isWellFormed value = true.
Proof.
  unfold decode. destruct (decodeURIComponent text) as [t|e];
    cbn [cbind]; [|discriminate].
  intros [= <-]. apply Buffer_toString_isWellFormed.
  apply Buffer_from_base64_isOctet.
Qed.

Lemma base64_char_not_percent (v : Z) : 0 <= v < 64 -> base64_char v <> 37.
Proof.
  intros Hv.
  pose proof (below_forallb (fun v => negb (base64_char v =? 37)) 64 eq_refl
                            v Hv) as H.
  cbv beta in H. apply negb_true_iff in H. now apply Z.eqb_neq.
Qed.

Lemma Buffer_toString_base64_no_percent (bs : list Z) :
  Forall isOctet bs -> Forall (fun c => c <> 37) (Buffer_toString_base64 bs).
Proof.
  unfold isOctet.
  induction bs as [|b0|b0 b1|b0 b1 b2 bs IH] using list_ind3; intros H.
  - constructor.
  - inversion_clear H as [|? ? H0 _]. simpl.
    repeat constructor; try (apply base64_char_not_percent; sextet_bound);
      lia.
  - inversion_clear H as [|? ? H0 H']. inversion_clear H' as [|? ? H1 _].
    simpl.
    repeat constructor; try (apply base64_char_not_percent; sextet_bound);
      lia.
  - inversion_clear H as [|? ? H0 H']. inversion_clear H' as [|? ? H1 H''].
    inversion_clear H'' as [|? ? H2 Hbs]. simpl.
    repeat (constructor; [apply base64_char_not_percent; sextet_bound|]).
    now apply IH.
Qed.

(** X16.  decode also reads a token that was not percent-encoded: for
    every well-formed text, the base64 of its UTF-8 octets decodes to the
    text. *)
Theorem decode_plain_base64 (s : jsstring) :
  isWellFormed s = true ->
  decode (Buffer_toString_base64 (Buffer_from_utf8 s)) = Return s.
Proof.
  intros Hwf.
  destruct (Buffer_toString_from_utf8 s Hwf) as [Hs Hoct].
  unfold decode, decodeURIComponent.
  rewrite Decode_no_percent.
  - cbn [cbind]. now rewrite Buffer_from_base64_toString, Hs.
  - intros Hin.
    pose proof (Buffer_toString_base64_no_percent _ Hoct) as H.
    rewrite Forall_forall in H. now apply (H 37 Hin).
Qed.

(** ** Concrete runs of the further properties *)

(** The filter of a tag token falls in the second case. *)
Lemma filterGroupValue_inversion_witness :
  filterGroupValue (Some (lit "tags.Zm9v"))
  = Return (Some (lit "tags"), Some (lit "foo"))
  /\ ((truthy_string (Some (lit "tags.Zm9v")) = false
       /\ Some (lit "tags") = None /\ Some (lit "foo") = None)
      \/ (exists g token v,
            In g searchGroups
            /\ Some (lit "tags.Zm9v") = Some (g ++ lit "." ++ token)
            /\ decode token = Return v
            /\ Some (lit "tags") = Some g /\ Some (lit "foo") = Some v)
      \/ (exists s,
            Some (lit "tags.Zm9v") = Some s /\ s <> []
            /\ (forall g, In g searchGroups ->
                          startsWith s (g ++ lit ".") = false)
            /\ Some (lit "tags") = Some s /\ Some (lit "foo") = None)).
Proof.
  split; [reflexivity|].
  exact (filterGroupValue_inversion (Some (lit "tags.Zm9v"))
           (Some (lit "tags")) (Some (lit "foo")) eq_refl).
Defined.

(** The group [series], bare and with its dot. *)
Lemma filterGroupValue_bare_group_witness :
  In (lit "series") searchGroups
  /\ filterGroupValue (Some (lit "series")) = Return (Some (lit "series"), None)
  /\ filterGroupValue (Some (lit "series" ++ lit "."))
     = Return (Some (lit "series"), Some []).
Proof.
  assert (Hin : In (lit "series") searchGroups)
    by (right; right; left; reflexivity).
  split; [exact Hin|].
  exact (filterGroupValue_bare_group (lit "series") Hin).
Defined.

(** A tag token with a bad escape, in a book library. *)
Lemma getFilteredLibraryItems_bad_token_witness :
  In (lit "tags") searchGroups
  /\ filterBy badTokenOptions = Some (lit "tags" ++ lit "." ++ lit "%zz")
  /\ decodeURIComponent (lit "%zz") = Throw URIError
  /\ run sampleStorage
         (getFilteredLibraryItems bookLibrary (lit "user") badTokenOptions)
     = ([], Throw URIError).
Proof.
  assert (Hin : In (lit "tags") searchGroups) by (right; left; reflexivity).
  split; [exact Hin|]. split; [reflexivity|]. split; [reflexivity|].
  exact (getFilteredLibraryItems_bad_token bookLibrary (lit "user")
           badTokenOptions (lit "tags") (lit "%zz") URIError sampleStorage
           Hin eq_refl eq_refl).
Defined.

(** The tag filter of [sampleOptions] in a podcast library. *)
Lemma getFilteredLibraryItems_passes_answer_witness :
  filterGroupValue (filterBy sampleOptions)
  = Return (Some (lit "tags"), Some (lit "foo"))
  /\ exists request : Request ItemsPage,
      run sampleStorage
          (getFilteredLibraryItems podcastLibrary (lit "user") sampleOptions)
      = ([existT _ _ request], sampleStorage ItemsPage request)
      /\ request_libraryId (existT _ _ request) = library_id podcastLibrary
      /\ request_limit (existT _ _ request) = limit sampleOptions
      /\ request_offset (existT _ _ request) = offset sampleOptions.
Proof.
  split; [reflexivity|].
  exact (getFilteredLibraryItems_passes_answer podcastLibrary (lit "user")
           sampleOptions (Some (lit "tags")) (Some (lit "foo")) sampleStorage
           eq_refl).
Defined.

(** The continue-reading shelf of a book library with one book. *)
Lemma item_shelves_enrich_in_order_witness :
  snd (run sampleStorage
         (getLibraryItemsInProgress bookLibrary (lit "user") [] 10 false))
  = Return {| libraryItems := map inProgress_item [sampleItem "Dune" (Some 5)];
              count := 1 |}
  /\ ((fst (run sampleStorage
              (getLibraryItemsInProgress bookLibrary (lit "user") [] 10 false))
       = []
       /\ map inProgress_item [sampleItem "Dune" (Some 5)] = [] /\ 1 = 0)
      \/ exists request page,
          fst (run sampleStorage
                 (getLibraryItemsInProgress bookLibrary (lit "user") [] 10
                    false))
          = [existT _ _ request]
          /\ sampleStorage ItemsPage request = Return page
          /\ 1 = page_count page
          /\ Forall2 enriched (page_libraryItems page)
                     (map inProgress_item [sampleItem "Dune" (Some 5)])).
Proof.
  split; [reflexivity|].
  exact (Forall_inv
           (item_shelves_enrich_in_order bookLibrary (lit "user") [] 10 false
              sampleStorage)
           {| libraryItems := map inProgress_item [sampleItem "Dune" (Some 5)];
              count := 1 |}
           eq_refl).
Defined.

(** A book without a stored size. *)
Lemma mostRecentlyAdded_item_keeps_media_witness :
  truthy_number (li_size (sampleItem "Dune" None)) = false
  /\ media (mostRecentlyAdded_item (sampleItem "Dune" None))
     = media (getOldLibraryItem_toJSONMinified (sampleItem "Dune" None)).
Proof.
  split; [reflexivity|].
  exact (mostRecentlyAdded_item_keeps_media (sampleItem "Dune" None)
           (or_intror eq_refl)).
Defined.

(** A book without a series. *)
Lemma continueSeries_item_series_witness :
  li_series (sampleItem "Dune" (Some 5)) = None
  /\ media (continueSeries_item (sampleItem "Dune" (Some 5)))
     = media (getOldLibraryItem_toJSONMinified (sampleItem "Dune" (Some 5))).
Proof.
  split; [reflexivity|].
  exact (proj1 (proj2 (continueSeries_item_series
                         (sampleItem "Dune" (Some 5))))
               eq_refl).
Defined.

(** The recent series shelf of [sampleRows], asked without feeds. *)
Lemma getSeriesMostRecentlyAdded_series_in_order_witness :
  (false = true <-> In (lit "rssfeed") [])
  /\ sampleStorage SeriesPage
       (Series_findAndCountAll (library_id bookLibrary) 10 0 false)
     = Return {| rows := sampleRows; rows_count := 3 |}
  /\ exists shelf left,
      snd (run sampleStorage (getSeriesMostRecentlyAdded bookLibrary [] 10))
      = Return (shelf, left)
      /\ series_count shelf = 3
      /\ Forall2 oldSeriesFor sampleRows (series shelf).
Proof.
  assert (H : false = true <-> In (lit "rssfeed") [])
    by (split; [discriminate|intros []]).
  split; [exact H|]. split; [reflexivity|].
  exact (proj2 (getSeriesMostRecentlyAdded_series_in_order bookLibrary [] 10
                  false sampleStorage H)
               {| rows := sampleRows; rows_count := 3 |}
               eq_refl sampleRows_loaded).
Defined.

(** Series [A] followed by a series with an orphan book. *)
Lemma getSeriesMostRecentlyAdded_missing_libraryItem_witness :
  storageOf [seriesA; orphanSeries] SeriesPage
    (Series_findAndCountAll (library_id bookLibrary) 10 0
       (existsb (jsstring_eqb (lit "rssfeed")) []))
  = Return {| rows := [seriesA; orphanSeries]; rows_count := 2 |}
  /\ Exists (fun s => Exists libraryItemMissing (bookSeries s))
            [seriesA; orphanSeries]
  /\ snd (run (storageOf [seriesA; orphanSeries])
            (getSeriesMostRecentlyAdded bookLibrary [] 10))
     = Throw TypeError.
Proof.
  assert (H : Exists (fun s => Exists libraryItemMissing (bookSeries s))
                     [seriesA; orphanSeries]).
  { apply Exists_cons_tl. apply Exists_cons_hd. apply Exists_cons_hd.
    reflexivity. }
  split; [reflexivity|]. split; [exact H|].
  exact (getSeriesMostRecentlyAdded_missing_libraryItem bookLibrary [] 10
           (storageOf [seriesA; orphanSeries])
           {| rows := [seriesA; orphanSeries]; rows_count := 2 |}
           eq_refl H).
Defined.

(** The rows of [sampleRows] handed out a second time. *)
Lemma getSeriesMostRecentlyAdded_twice_witness :
  sampleStorage SeriesPage
    (Series_findAndCountAll (library_id bookLibrary) 10 0
       (existsb (jsstring_eqb (lit "rssfeed")) []))
  = Return {| rows := sampleRows; rows_count := 3 |}
  /\ Exists (fun s => bookSeries s <> []) sampleRows
  /\ exists shelf,
      snd (run sampleStorage (getSeriesMostRecentlyAdded bookLibrary [] 10))
      = Return (shelf, map seriesAsLeft sampleRows)
      /\ snd (run (storageOf (map seriesAsLeft sampleRows))
                (getSeriesMostRecentlyAdded bookLibrary [] 10))
         = Throw TypeError.
Proof.
  assert (H : Exists (fun s => bookSeries s <> []) sampleRows)
    by (apply Exists_cons_hd; discriminate).
  split; [reflexivity|]. split; [exact H|].
  destruct (getSeriesMostRecentlyAdded_twice bookLibrary [] 10 sampleStorage
              {| rows := sampleRows; rows_count := 3 |}
              eq_refl sampleRows_loaded H)
    as (shelf & left & Hfirst & Hsecond).
  exists shelf.
  assert (Hleft : left = map seriesAsLeft sampleRows).
  { vm_compute in Hfirst. injection Hfirst as _ <-. reflexivity. }
  split; [now rewrite <- Hleft|].
  exact (Hsecond (storageOf (map seriesAsLeft sampleRows))
                 {| rows := map seriesAsLeft sampleRows;
                    rows_count := 3 |}
                 eq_refl (eq_sym Hleft)).
Defined.

(** Rows with the sequences 1, 3 and none, under the sample collator. *)
Lemma sort_sequenceCompare_sorted_witness :
  StronglySorted bySequence
    [sampleBookSeries "one" (Some (lit "1"));
     sampleBookSeries "three" (Some (lit "3"));
     sampleBookSeries "extra" None]
  /\ sort sequenceCompare
          [sampleBookSeries "one" (Some (lit "1"));
           sampleBookSeries "three" (Some (lit "3"));
           sampleBookSeries "extra" None]
     = [sampleBookSeries "one" (Some (lit "1"));
        sampleBookSeries "three" (Some (lit "3"));
        sampleBookSeries "extra" None].
Proof.
  assert (H : StronglySorted bySequence
                [sampleBookSeries "one" (Some (lit "1"));
                 sampleBookSeries "three" (Some (lit "3"));
                 sampleBookSeries "extra" None]).
  { repeat constructor; vm_compute; discriminate. }
  split; [exact H|].
  exact (sort_sequenceCompare_sorted _ H).
Defined.

(** The sequences 1, 2 and 10 under the sample collator. *)
Lemma sequenceCompare_before_transitive_witness :
  sequenceCompare (sampleBookSeries "one" (Some (lit "1")))
                  (sampleBookSeries "two" (Some (lit "2"))) < 0
  /\ sequenceCompare (sampleBookSeries "two" (Some (lit "2")))
                     (sampleBookSeries "ten" (Some (lit "10"))) < 0
  /\ sequenceCompare (sampleBookSeries "one" (Some (lit "1")))
                     (sampleBookSeries "ten" (Some (lit "10"))) < 0.
Proof.
  assert (H1 : sequenceCompare (sampleBookSeries "one" (Some (lit "1")))
                               (sampleBookSeries "two" (Some (lit "2"))) < 0)
    by reflexivity.
  assert (H2 : sequenceCompare (sampleBookSeries "two" (Some (lit "2")))
                               (sampleBookSeries "ten" (Some (lit "10"))) < 0)
    by reflexivity.
  split; [exact H1|]. split; [exact H2|].
  exact (proj1 (sequenceCompare_before_transitive _ _ _) H1 H2).
Defined.

(** The base64 of an encoded surrogate decodes to three U+FFFD. *)
Lemma decode_isWellFormed_witness :
  decode (lit "7aCA") = Return [65533; 65533; 65533]
  /\ isWellFormed [65533; 65533; 65533] = true.
Proof.
  split; [reflexivity|].
  exact (decode_isWellFormed (lit "7aCA") [65533; 65533; 65533] eq_refl).
Defined.

(** A text with two-, three- and four-octet characters, not
    percent-encoded. *)
Lemma decode_plain_base64_witness :
  isWellFormed [104; 233; 8364; 55357; 56832] = true
  /\ decode (Buffer_toString_base64
               (Buffer_from_utf8 [104; 233; 8364; 55357; 56832]))
     = Return [104; 233; 8364; 55357; 56832].
Proof.
  split; [reflexivity|].
  exact (decode_plain_base64 [104; 233; 8364; 55357; 56832] eq_refl).
Defined.
